(** * dw-delegate: a shallow embedding of [Delegate.h]

    The header defines C#-like delegates: a vector of subscribed callables
    ([subscribers]) and, for the capturing delegates, a second vector
    ([parameters]) of argument packs saved at subscription, each tagged
    with the position of the callable it replays.

    Vectors are lists; [size_t] (64 bits) and [int] (32 bits) values are
    integers of [Z] with the conversions between them written out; an
    operation whose C++ behaviour is undefined (an access or an iterator
    out of range, [pop_back] on an empty vector, signed overflow) yields
    [None]. *)

From stdpp Require Import base tactics option list numbers gmap.
From Stdlib Require Import ZArith Lia.

Local Open Scope Z_scope.

(** ** Machine integers and [std::vector] *)

Module Cxx.

Definition SIZE_MAX : Z := 2 ^ 64 - 1.
Definition INT_MAX : Z := 2 ^ 31 - 1.
Definition INT_MIN : Z := - 2 ^ 31.

(** Conversion to the 64-bit unsigned [size_t]. *)
Definition to_size_t (z : Z) : Z := z mod 2 ^ 64.

(** Conversion to the 32-bit two's complement [int]: modular, as C++20
    requires and compilers did before. *)
Definition to_int (z : Z) : Z := (z + 2 ^ 31) mod 2 ^ 32 - 2 ^ 31.

Definition in_int (z : Z) : Prop := INT_MIN <= z <= INT_MAX.

(** [v.size()] *)
Definition size {T} (v : list T) : Z := Z.of_nat (length v).

(** [v[i]] for an index already converted to [size_type]. *)
Definition at_ {T} (v : list T) (i : Z) : option T :=
  if bool_decide (0 <= i < size v) then v !! Z.to_nat i else None.

(** [v.push_back(x)] *)
Definition push_back {T} (v : list T) (x : T) : list T := v ++ [x].

(** [v.pop_back()], undefined on an empty vector. *)
Definition pop_back {T} (v : list T) : option (list T) :=
  match v with
  | [] => None
  | _ => Some (take (length v - 1)%nat v)
  end.

(** [v.erase(v.begin() + i)]: the iterator must be dereferenceable. *)
Definition erase {T} (v : list T) (i : Z) : option (list T) :=
  if bool_decide (0 <= i < size v) then Some (delete (Z.to_nat i) v) else None.

(** [v.erase(v.begin(), v.begin() + n)]: a valid range of [v]. *)
Definition erase_prefix {T} (v : list T) (n : Z) : option (list T) :=
  if bool_decide (0 <= n <= size v) then Some (drop (Z.to_nat n) v) else None.

(** [for (size_t i = 0; i < n; ++i) body] for a body that does not read
    [i]; [n] is the bound after its conversion to [size_t]. *)
Definition for_loop {S} (n : Z) (body : S -> option S) (s : S) : option S :=
  Z.iter n (fun o => o ≫= body) (Some s).
Arguments for_loop : simpl never.

End Cxx.

Import Cxx.

(** [FunctionParams<T...>]: a saved argument pack and the index of the
    subscriber it belongs to. *)
Module FunctionParams.
Record t (T : Type) : Type := make { index : Z; parameters : T }.
Arguments make {T} _ _.
Arguments index {T} _.
Arguments parameters {T} _.
End FunctionParams.

Abbreviation FunctionParams := FunctionParams.t.

(** [MemberFunctionParams<T...>] of the member delegates. *)
Module MemberFunctionParams.
Record t (O T : Type) : Type := make { index : Z; object : O; parameters : T }.
Arguments make {O T} _ _ _.
Arguments index {O T} _.
Arguments object {O T} _.
Arguments parameters {O T} _.
End MemberFunctionParams.

Abbreviation MemberFunctionParams := MemberFunctionParams.t.

(** The return type of an aggregating delegate: [ReturnType()] and [+=]. *)
Class Additive (R : Type) : Type := { value_init : R; plus_assign : R -> R -> R }.

#[export] Instance Additive_Z : Additive Z := {| value_init := 0; plus_assign := Z.add |}.

(** ** [DelegateBase<ReturnType, Params...>] *)

Record DelegateBase (F A : Type) : Type := mkDelegateBase {
  subscribers : list F;
  parameters : list (FunctionParams A)
}.
Arguments mkDelegateBase {F A} _ _.
Arguments subscribers {F A} _.
Arguments parameters {F A} _.

Section DelegateBase.
Context {F A : Type}.
Implicit Types (d : DelegateBase F A) (function : F) (params tuple : A).

Definition empty_delegate : DelegateBase F A := mkDelegateBase [] [].

(** [AttachParameters(tuple, index_sequence)] *)
Definition AttachParameters tuple d : DelegateBase F A :=
  mkDelegateBase (subscribers d)
    (push_back (parameters d)
       (FunctionParams.make (to_size_t (size (subscribers d) - 1)) tuple)).

(** [this->subscribers.push_back(function)] *)
Definition push_subscriber function d : DelegateBase F A :=
  mkDelegateBase (push_back (subscribers d) function) (parameters d).

(** [Subscribe(const FunctionType &function, Params... params)] *)
Definition Subscribe function params d : DelegateBase F A :=
  AttachParameters params (push_subscriber function d).

(** [Subscribe(const std::initializer_list<FunctionType> &functions, Params... params)] *)
Definition Subscribe_functions (functions : list F) params d : DelegateBase F A :=
  foldl (fun d' f => AttachParameters params (push_subscriber f d')) d functions.

(** [Subscribe(const FunctionType &function, std::vector<std::tuple<Params...>> params)] *)
Definition Subscribe_packs function (params : list A) d : DelegateBase F A :=
  foldl (fun d' p => AttachParameters p (push_subscriber function d')) d params.

(** [DetachParameters(const size_t index)]: the [int] counter overflows
    past [INT_MAX] erased entries. *)
Definition DetachParameters (index : Z) d : option (DelegateBase F A) :=
  let erasedCount := size (filter (fun x => FunctionParams.index x = index) (parameters d)) in
  let kept := filter (fun x => FunctionParams.index x <> index) (parameters d) in
  if bool_decide (erasedCount <= INT_MAX) then
    if bool_decide (index > 0) then Some (mkDelegateBase (subscribers d) kept)
    else
      Some (mkDelegateBase (subscribers d)
              ((fun x => FunctionParams.make
                           (to_size_t (FunctionParams.index x - to_size_t erasedCount))
                           (FunctionParams.parameters x)) <$> kept))
  else None.

(** The bodies of the two loops of the removal from the back:
    [DetachParameters(parameters.size() - 1)] and [subscribers.pop_back()]. *)
Definition detach_last d : option (DelegateBase F A) :=
  DetachParameters (to_size_t (size (parameters d) - 1)) d.

Definition pop_subscriber d : option (DelegateBase F A) :=
  subs ← pop_back (subscribers d);
  Some (mkDelegateBase subs (parameters d)).

(** [Remove(int count = 1, bool fromBack = true)]: the conditional
    expression has type [size_t], the comparison is unsigned, and each
    loop compares its [size_t] counter with the [int] bound. *)
Definition Remove (count : Z) (fromBack : bool) d : option (DelegateBase F A) :=
  let adjustedCount :=
    to_int (if bool_decide (to_size_t count < size (subscribers d))
            then to_size_t count
            else to_size_t (size (subscribers d) - 1)) in
  if negb fromBack then
    d1 ← for_loop (to_size_t adjustedCount) (DetachParameters 0) d;
    subs ← erase_prefix (subscribers d1) count;
    Some (mkDelegateBase subs (parameters d1))
  else
    d1 ← for_loop (to_size_t adjustedCount) detach_last d;
    for_loop (to_size_t adjustedCount) pop_subscriber d1.

(** [Clear()] *)
Definition Clear d : DelegateBase F A := mkDelegateBase [] [].

(** [operator+=(const FunctionType &rhs)] *)
Definition add_assign (rhs : F) d : DelegateBase F A := push_subscriber rhs d.

(** [operator+=(const std::initializer_list<FunctionType> &rhs)] *)
Definition add_assign_functions (rhs : list F) d : DelegateBase F A :=
  foldl (fun d' x => push_subscriber x d') d rhs.

(** [operator-=(const FunctionType &rhs)] *)
Definition sub_assign `{EqDecision F} (rhs : F) d : DelegateBase F A :=
  mkDelegateBase (filter (fun x => x <> rhs) (subscribers d)) (parameters d).

(** [operator++()] *)
Definition pre_increment d : DelegateBase F A :=
  match subscribers d with
  | [] => d
  | newDel :: _ =>
      match parameters d with
      | [] => mkDelegateBase (newDel :: subscribers d) (parameters d)
      | front :: _ =>
          AttachParameters (FunctionParams.parameters front)
            (mkDelegateBase (newDel :: subscribers d) (parameters d))
      end
  end.

(** [operator++(int)] *)
Definition post_increment d : DelegateBase F A :=
  match last (subscribers d) with
  | None => d
  | Some newDel =>
      match last (parameters d) with
      | None => push_subscriber newDel d
      | Some back =>
          AttachParameters (FunctionParams.parameters back) (push_subscriber newDel d)
      end
  end.

(** [operator--()] *)
Definition pre_decrement d : option (DelegateBase F A) :=
  match subscribers d with
  | [] => Some d
  | _ =>
      match last (parameters d) with
      | None => subs ← pop_back (subscribers d); Some (mkDelegateBase subs (parameters d))
      | Some back =>
          let index := to_int (FunctionParams.index back) in
          ps ← pop_back (parameters d);
          subs ← erase (subscribers d) index;
          Some (mkDelegateBase subs ps)
      end
  end.

(** [operator--(int)] *)
Definition post_decrement d : option (DelegateBase F A) :=
  match subscribers d with
  | [] => Some d
  | _ =>
      match last (parameters d) with
      | None => subs ← pop_back (subscribers d); Some (mkDelegateBase subs (parameters d))
      | Some back =>
          let index := to_int (FunctionParams.index back) in
          ps ← pop_back (parameters d);
          subs ← erase (subscribers d) index;
          Some (mkDelegateBase subs ps)
      end
  end.

End DelegateBase.

(** ** Delegates as objects: [Combine] and the transfer operators

    [Combine], [operator<<] and [operator>>] take a second delegate by
    reference, which may be the receiver itself.  Delegates therefore live
    in a store, keyed by address.  The loop of [Combine] reads
    [other.subscribers.size()] again at every iteration, so it is run on
    fuel. *)

Inductive outcome (T : Type) : Type :=
  | Done (x : T)
  | Undefined
  | OutOfFuel.
Arguments Done {T} _.
Arguments Undefined {T}.
Arguments OutOfFuel {T}.

Section Store.
Context {F A : Type}.
Local Abbreviation store := (gmap nat (DelegateBase F A)).

(** The loop of [Combine(const DelegateBase &other)], from counter [i].
    The counter is bounded by a vector size and does not wrap. *)
Fixpoint Combine_loop (fuel : nat) (this other : nat) (i : Z) (h : store) : outcome store :=
  match fuel with
  | O => OutOfFuel
  | S fuel' =>
      match h !! other with
      | None => Undefined
      | Some o =>
          if bool_decide (i < size (subscribers o)) then
            match at_ (subscribers o) i, h !! this with
            | Some f, Some t =>
                let h1 := <[this := push_subscriber f t]> h in
                match h1 !! other ≫= (fun o1 => at_ (parameters o1) i), h1 !! this with
                | Some p, Some t1 =>
                    Combine_loop fuel' this other (i + 1)
                      (<[this := AttachParameters (FunctionParams.parameters p) t1]> h1)
                | _, _ => Undefined
                end
            | _, _ => Undefined
            end
          else Done h
      end
  end.

Definition Combine (fuel : nat) (this other : nat) (h : store) : outcome store :=
  Combine_loop fuel this other 0 h.

(** [this->Combine(rhs); rhs.Clear();] under the guard [this != &rhs]. *)
Definition transfer (fuel : nat) (dst src : nat) (h : store) : outcome store :=
  if bool_decide (dst <> src) then
    match Combine fuel dst src h with
    | Done h1 =>
        match h1 !! src with
        | Some r => Done (<[src := Clear r]> h1)
        | None => Undefined
        end
    | o => o
    end
  else Done h.

(** [operator<<(DelegateBase &rhs)] *)
Definition shift_left (fuel : nat) (this rhs : nat) (h : store) : outcome store :=
  transfer fuel this rhs h.

(** [operator>>(DelegateBase &rhs)] *)
Definition shift_right (fuel : nat) (this rhs : nat) (h : store) : outcome store :=
  transfer fuel rhs this h.

End Store.

(** ** Invocation

    A subscriber is run by [call], which returns its result and the world
    it leaves behind. *)

Section Invocation.
Context {F A R W : Type} `{Additive R}.
Variable call : F -> A -> W -> R * W.
Implicit Types (d : DelegateBase F A) (w : W).

(** [HelperInvoke(tuple, int index, index_sequence)]:
    [subscribers[index](std::get<Indices>(tuple)...)] *)
Definition HelperInvoke d (tuple : A) (index : Z) w : option (R * W) :=
  f ← at_ (subscribers d) (to_size_t index);
  Some (call f tuple w).

(** [DelegateBase::Invoke()], the loop over [parameters]. *)
Fixpoint Invoke_loop d (rest : list (FunctionParams A)) w : option W :=
  match rest with
  | [] => Some w
  | p :: rest' =>
      rw ← HelperInvoke d (FunctionParams.parameters p) (to_int (FunctionParams.index p)) w;
      Invoke_loop d rest' rw.2
  end.

Definition Invoke d w : option W := Invoke_loop d (parameters d) w.

(** [RetDelegate::Invoke()], the loop over [parameters] from counter [i]. *)
Fixpoint RetDelegate_Invoke_loop d (i : Z) (rest : list (FunctionParams A))
    (result : R) w : option (R * W) :=
  match rest with
  | [] => Some (result, w)
  | p :: rest' =>
      rw ← HelperInvoke d (FunctionParams.parameters p) (to_int i) w;
      RetDelegate_Invoke_loop d (i + 1) rest' (plus_assign result rw.1) rw.2
  end.

Definition RetDelegate_Invoke d w : option (R * W) :=
  RetDelegate_Invoke_loop d 0 (parameters d) value_init w.

(** [Delegate::operator()(Params... params)] *)
Definition Delegate_call d (params : A) w : W :=
  foldl (fun w' i => (call i params w').2) w (subscribers d).

(** [RetDelegate::operator()(Params... params)] *)
Definition RetDelegate_call d (params : A) w : R * W :=
  foldl (fun acc i => let rw := call i params acc.2 in (plus_assign acc.1 rw.1, rw.2))
    (value_init, w) (subscribers d).

End Invocation.

(** ** [MemberDelegateBase<ReturnType, ObjType, Params...>] *)

Module MemberDelegateBase.
Record t (M O A : Type) : Type := make {
  subscribers : list M;
  parameters : list (MemberFunctionParams O A)
}.
Arguments make {M O A} _ _.
Arguments subscribers {M O A} _.
Arguments parameters {M O A} _.
End MemberDelegateBase.

Abbreviation MemberDelegateBase := MemberDelegateBase.t.

Section MemberInvocation.
Context {M O A R W : Type} `{Additive R}.
Variable call_member : M -> O -> A -> W -> R * W.

(** [RetMemberDelegate::operator()(ObjType *obj, Params... params)] *)
Definition RetMemberDelegate_call (d : MemberDelegateBase M O A) (obj : O) (params : A)
    (w : W) : R * W :=
  foldl (fun acc i => let rw := call_member i obj params acc.2 in
                      (plus_assign acc.1 rw.1, rw.2))
    (value_init, w) (MemberDelegateBase.subscribers d).

End MemberInvocation.

(** ** Sequences of [Subscribe] calls *)

(** One call of one of the three overloads of [Subscribe]. *)
Inductive subscription (F A : Type) : Type :=
  | Single (function : F) (params : A)
  | Functions (functions : list F) (params : A)
  | Packs (function : F) (params : list A).
Arguments Single {F A} _ _.
Arguments Functions {F A} _ _.
Arguments Packs {F A} _ _.

Section Subscriptions.
Context {F A : Type}.

Definition subscribe_call (c : subscription F A) (d : DelegateBase F A) : DelegateBase F A :=
  match c with
  | Single function params => Subscribe function params d
  | Functions functions params => Subscribe_functions functions params d
  | Packs function params => Subscribe_packs function params d
  end.

Definition subscribe_calls (cs : list (subscription F A)) (d : DelegateBase F A) :
    DelegateBase F A :=
  foldl (fun d' c => subscribe_call c d') d cs.

(** The argument tuples a call is given: one pack for the first two
    overloads, the vector's elements for the third. *)
Definition tuples_provided (c : subscription F A) : list A :=
  match c with
  | Single _ params => [params]
  | Functions _ params => [params]
  | Packs _ params => params
  end.

(** The (callable, argument tuple) pairs a call subscribes. *)
Definition pairs_subscribed (c : subscription F A) : list (F * A) :=
  match c with
  | Single function params => [(function, params)]
  | Functions functions params => map (fun f => (f, params)) functions
  | Packs function params => map (fun p => (function, p)) params
  end.

(** Subscribing the pairs of [es] one at a time. *)
Definition subscribe_pairs (es : list (F * A)) (d : DelegateBase F A) : DelegateBase F A :=
  foldl (fun d' e => Subscribe e.1 e.2 d') d es.

(** The snapshots attached for the pairs [es] when [n] callables are
    already subscribed. *)
Definition snapshots_from (n : Z) (es : list (F * A)) : list (FunctionParams A) :=
  imap (fun i e => FunctionParams.make (to_size_t (n + Z.of_nat i + 1 - 1)) e.2) es.

End Subscriptions.

(** ** Invariant I1 *)

(** Every saved pack carries the index of a subscriber. *)
Definition I1 {F A} (d : DelegateBase F A) : Prop :=
  Forall (fun p => 0 <= FunctionParams.index p < size (subscribers d)) (parameters d).

#[export] Instance I1_dec {F A} (d : DelegateBase F A) : Decision (I1 d).
Proof. unfold I1. apply _. Defined.

(** ** Callables of the README *)

Inductive lambda : Set := lambda1 | lambda2 | lambda3.

#[export] Instance lambda_eq_dec : EqDecision lambda.
Proof. solve_decision. Defined.

(** A callable of a [void] delegate that leaves its name and argument in
    the log. *)
Definition logged {F A} (f : F) (x : A) (w : list (F * A)) : unit * list (F * A) :=
  (tt, w ++ [(f, x)]).

(** The same for a callable that returns its argument. *)
Definition traced {F} (f : F) (x : Z) (w : list (F * Z)) : Z * list (F * Z) :=
  (x, w ++ [(f, x)]).

(** ** Results of a round of calls *)

Section Results.
Context {F A R W : Type} `{Additive R}.
Variable call : F -> A -> W -> R * W.

(** The results of calling each of [fs] in turn with [params], and the
    world after the last call. *)
Fixpoint call_each (fs : list F) (params : A) (w : W) : list R * W :=
  match fs with
  | [] => ([], w)
  | f :: fs' =>
      let rw := call f params w in
      let rest := call_each fs' params rw.2 in
      (rw.1 :: rest.1, rest.2)
  end.

(** The sum of [rs] under [+=], from a value-initialised [ReturnType]. *)
Definition sum_results (rs : list R) : R := foldl plus_assign value_init rs.

End Results.

(** ** Aligned delegates *)

(** The [i]-th saved pack carries index [i]. *)
Definition counted {A} (ps : list (FunctionParams A)) : Prop :=
  FunctionParams.index <$> ps = Z.of_nat <$> seq 0 (length ps).

(** One pack per subscriber, the [i]-th for the [i]-th: the shape in which
    [Subscribe] leaves a delegate. *)
Definition aligned {F A} (d : DelegateBase F A) : Prop :=
  counted (parameters d) /\ length (parameters d) = length (subscribers d).

#[export] Instance counted_dec {A} (ps : list (FunctionParams A)) : Decision (counted ps).
Proof. unfold counted. apply _. Defined.

#[export] Instance aligned_dec {F A} (d : DelegateBase F A) : Decision (aligned d).
Proof. unfold aligned. apply _. Defined.

(** ** Sequences of operations on one delegate *)

Inductive operation (F A : Type) : Type :=
  | OpSubscribe (c : subscription F A)
  | OpRemove (count : Z) (fromBack : bool)
  | OpDuplicateFirst
  | OpDuplicateLast
  | OpRemoveFirst
  | OpRemoveLast
  | OpClear.
Arguments OpSubscribe {F A} _.
Arguments OpRemove {F A} _ _.
Arguments OpDuplicateFirst {F A}.
Arguments OpDuplicateLast {F A}.
Arguments OpRemoveFirst {F A}.
Arguments OpRemoveLast {F A}.
Arguments OpClear {F A}.

Definition run_operation {F A} (op : operation F A) (d : DelegateBase F A) :
    option (DelegateBase F A) :=
  match op with
  | OpSubscribe c => Some (subscribe_call c d)
  | OpRemove count fromBack => Remove count fromBack d
  | OpDuplicateFirst => Some (pre_increment d)
  | OpDuplicateLast => Some (post_increment d)
  | OpRemoveFirst => pre_decrement d
  | OpRemoveLast => post_decrement d
  | OpClear => Some (Clear d)
  end.

Definition run_operations {F A} (ops : list (operation F A)) (d : DelegateBase F A) :
    option (DelegateBase F A) :=
  foldl (fun od op => od ≫= run_operation op) (Some d) ops.

(** ** The replay as specified *)

Section Replay.
Context {F A R W : Type}.
Variable call : F -> A -> W -> R * W.

(** For each snapshot in order, the callable at the snapshot's index and
    the snapshot's pack. *)
Fixpoint replay_plan (subs : list F) (ps : list (FunctionParams A)) : option (list (F * A)) :=
  match ps with
  | [] => Some []
  | p :: ps' =>
      f ← at_ subs (FunctionParams.index p);
      rest ← replay_plan subs ps';
      Some ((f, FunctionParams.parameters p) :: rest)
  end.

(** Making the calls of a plan in order: the results and the last world. *)
Fixpoint dispatch_each (plan : list (F * A)) (w : W) : list R * W :=
  match plan with
  | [] => ([], w)
  | (f, x) :: plan' =>
      let rw := call f x w in
      let rest := dispatch_each plan' rw.2 in
      (rw.1 :: rest.1, rest.2)
  end.

End Replay.

(** The calls that stay below the clamp of [Remove] and within [int]. *)
Definition operation_in_range {F A} (op : operation F A) (d : DelegateBase F A) : Prop :=
  match op with
  | OpSubscribe c => size (subscribers d) + size (pairs_subscribed c) <= INT_MAX
  | OpRemove count true => 0 <= count <= INT_MAX /\ 1 <= size (subscribers d)
  | OpRemove count false => 0 <= count < size (subscribers d)
  | OpDuplicateFirst | OpDuplicateLast => size (subscribers d) < INT_MAX
  | OpRemoveFirst | OpRemoveLast | OpClear => True
  end.

(** ** [DelegateBase]: removal by value and comparisons *)

Section DelegateBaseOperators.
Context {F A : Type} `{EqDecision F}.
Implicit Types (d rhs : DelegateBase F A).

(** [operator-=(const std::initializer_list<FunctionType> &rhs)]:
    [toRemove] finds the function in [rhs]. *)
Definition sub_assign_functions (rhs : list F) d : DelegateBase F A :=
  mkDelegateBase (filter (fun func => func ∉ rhs) (subscribers d)) (parameters d).

(** [operator<], [operator<=], [operator>], [operator>=] *)
Definition less d rhs : bool :=
  bool_decide (size (subscribers d) < size (subscribers rhs)).
Definition less_equal d rhs : bool :=
  bool_decide (size (subscribers d) <= size (subscribers rhs)).
Definition greater d rhs : bool :=
  bool_decide (size (subscribers d) > size (subscribers rhs)).
Definition greater_equal d rhs : bool :=
  bool_decide (size (subscribers d) >= size (subscribers rhs)).

(** [operator==], [operator!=] *)
Definition equal d rhs : bool := bool_decide (subscribers d = subscribers rhs).
Definition not_equal d rhs : bool := bool_decide (subscribers d <> subscribers rhs).

End DelegateBaseOperators.

(** ** [SimpleDelegate<Params...>] *)

Module SimpleDelegate.

Record t (F : Type) : Type := make { subscribers : list F }.
Arguments make {F} _.
Arguments subscribers {F} _.

Section Operators.
Context {F A W : Type} `{EqDecision F}.
Variable call : F -> A -> W -> unit * W.

(** [operator()(Params... params)] *)
Definition call_operator (d : t F) (params : A) (w : W) : W :=
  foldl (fun w' i => (call i params w').2) w (subscribers d).

(** [operator+=(const FunctionType &rhs)] *)
Definition add_assign (rhs : F) (d : t F) : t F := make (push_back (subscribers d) rhs).

(** [operator-=(const FunctionType &rhs)] *)
Definition sub_assign (rhs : F) (d : t F) : t F :=
  make (filter (fun x => x <> rhs) (subscribers d)).

End Operators.

End SimpleDelegate.

(** ** [MemberDelegateBase], [MemberDelegate] and [RetMemberDelegate] *)

Section MemberDelegates.
Context {M O A R W : Type} `{Additive R} `{EqDecision M}.
Variable call_member : M -> O -> A -> W -> R * W.
Implicit Types (d : MemberDelegateBase M O A) (obj : O) (method : M) (w : W).

(** [AttachParameters(ObjType *obj, tuple, index_sequence)] *)
Definition MemberDelegateBase_AttachParameters obj (tuple : A) d : MemberDelegateBase M O A :=
  MemberDelegateBase.make (MemberDelegateBase.subscribers d)
    (push_back (MemberDelegateBase.parameters d)
       (MemberFunctionParams.make
          (to_size_t (size (MemberDelegateBase.subscribers d) - 1)) obj tuple)).

(** [Subscribe(ObjType *obj, const MemberFunctionType &method, Params... params)] *)
Definition MemberDelegateBase_Subscribe obj method (params : A) d : MemberDelegateBase M O A :=
  MemberDelegateBase_AttachParameters obj params
    (MemberDelegateBase.make (push_back (MemberDelegateBase.subscribers d) method)
       (MemberDelegateBase.parameters d)).

(** [operator+=(const MemberFunctionType &rhs)] *)
Definition MemberDelegateBase_add_assign (rhs : M) d : MemberDelegateBase M O A :=
  MemberDelegateBase.make (push_back (MemberDelegateBase.subscribers d) rhs)
    (MemberDelegateBase.parameters d).

(** [operator-=(const MemberFunctionType &rhs)] *)
Definition MemberDelegateBase_sub_assign (rhs : M) d : MemberDelegateBase M O A :=
  MemberDelegateBase.make (filter (fun x => x <> rhs) (MemberDelegateBase.subscribers d))
    (MemberDelegateBase.parameters d).

(** [HelperMemberInvoke(obj, tuple, int index, index_sequence)]:
    [(obj->*subscribers[index])(std::get<Indices>(tuple)...)] *)
Definition HelperMemberInvoke d obj (tuple : A) (index : Z) w : option (R * W) :=
  m ← at_ (MemberDelegateBase.subscribers d) (to_size_t index);
  Some (call_member m obj tuple w).

(** [MemberDelegate::Invoke()], the loop over [parameters] from counter [i]. *)
Fixpoint MemberDelegate_Invoke_loop d (i : Z) (rest : list (MemberFunctionParams O A)) w :
    option W :=
  match rest with
  | [] => Some w
  | p :: rest' =>
      rw ← HelperMemberInvoke d (MemberFunctionParams.object p)
              (MemberFunctionParams.parameters p) (to_int i) w;
      MemberDelegate_Invoke_loop d (i + 1) rest' rw.2
  end.

Definition MemberDelegate_Invoke d w : option W :=
  MemberDelegate_Invoke_loop d 0 (MemberDelegateBase.parameters d) w.

(** [RetMemberDelegate::Invoke()] *)
Fixpoint RetMemberDelegate_Invoke_loop d (i : Z) (rest : list (MemberFunctionParams O A))
    (result : R) w : option (R * W) :=
  match rest with
  | [] => Some (result, w)
  | p :: rest' =>
      rw ← HelperMemberInvoke d (MemberFunctionParams.object p)
              (MemberFunctionParams.parameters p) (to_int i) w;
      RetMemberDelegate_Invoke_loop d (i + 1) rest' (plus_assign result rw.1) rw.2
  end.

Definition RetMemberDelegate_Invoke d w : option (R * W) :=
  RetMemberDelegate_Invoke_loop d 0 (MemberDelegateBase.parameters d) value_init w.

(** [MemberDelegate::operator()(ObjType *obj, Params... params)] *)
Definition MemberDelegate_call d obj (params : A) w : W :=
  foldl (fun w' i => (call_member i obj params w').2) w (MemberDelegateBase.subscribers d).

(** Making the bound calls of a plan in order: the results and the last
    world. *)
Fixpoint dispatch_each_member (plan : list (M * O * A)) w : list R * W :=
  match plan with
  | [] => ([], w)
  | (m, obj, x) :: plan' =>
      let rw := call_member m obj x w in
      let rest := dispatch_each_member plan' rw.2 in
      (rw.1 :: rest.1, rest.2)
  end.

End MemberDelegates.

(** ** Sequences of operations within range *)

(** Every operation of the sequence is in range at the state it is run
    on. *)
Fixpoint operations_in_range {F A} (ops : list (operation F A)) (d : DelegateBase F A) : Prop :=
  match ops with
  | [] => True
  | op :: ops' =>
      operation_in_range op d /\
      forall d', run_operation op d = Some d' -> operations_in_range ops' d'
  end.

(** The delegate of the README's section on removing:
    [del.Subscribe(lambda1, {4, 6, 8}); del.Subscribe(lambda2, {-5, -7})]. *)
Definition readme_delegate : DelegateBase lambda Z :=
  Subscribe_packs lambda2 [-5; -7] (Subscribe_packs lambda1 [4; 6; 8] empty_delegate).

(** A method that logs its name, its object and its argument, and returns
    the argument. *)
Definition traced_member {M O} (m : M) (obj : O) (x : Z) (w : list (M * O * Z)) :
    Z * list (M * O * Z) :=
  (x, w ++ [(m, obj, x)]).

(** One step of a closed sequence of operations: the operation is in
    range, and the state it leaves is computed. *)
Ltac step_in_range :=
  split;
  [ vm_compute; repeat split; first [reflexivity | discriminate]
  | let d' := fresh "d" in
    let Hrun := fresh "Hrun" in
    intros d' Hrun; vm_compute in Hrun; injection Hrun as <- ].

(** Closed comparisons between integers, settled by evaluation. *)
Ltac by_evaluation :=
  vm_compute; repeat split; first [reflexivity | discriminate].

(** * Properties *)

(** ** Loops and conversions *)

Section LoopFacts.
Context {S : Type}.
Implicit Types (body : S -> option S) (s : S).

Lemma for_loop_nonpos n body s : n <= 0 -> for_loop n body s = Some s.
Proof. intros Hn. destruct n; [reflexivity | lia | reflexivity]. Qed.

Lemma iter_bind_None body p : Pos.iter (fun o => o ≫= body) None p = None.
Proof. apply Pos.iter_invariant; [intros x -> | ]; reflexivity. Qed.

Lemma for_loop_step n body s :
  0 < n -> for_loop n body s = body s ≫= for_loop (n - 1) body.
Proof.
  intros Hn. unfold for_loop. destruct n as [|p|p]; try lia.
  destruct (Pos.succ_pred_or p) as [-> | Hp].
  - simpl. destruct (body s); reflexivity.
  - replace (Z.pos p - 1) with (Z.pos (Pos.pred p)) by lia.
    simpl. rewrite <- Hp at 1. rewrite Pos.iter_succ_r. simpl.
    destruct (body s); simpl; [reflexivity | apply iter_bind_None].
Qed.

Lemma for_loop_fail n body s : 0 < n -> body s = None -> for_loop n body s = None.
Proof. intros Hn Hb. rewrite for_loop_step, Hb by assumption. reflexivity. Qed.

(** A property kept by every iteration, each of which is defined, is kept
    by the loop, which is then defined too. *)
Lemma for_loop_inv (P : S -> Prop) n body s :
  P s ->
  (forall x, P x -> exists y, body x = Some y /\ P y) ->
  exists y, for_loop n body s = Some y /\ P y.
Proof.
  intros Hs Hbody. destruct (Z_le_gt_dec n 0) as [Hn | Hn].
  { exists s. split; [apply for_loop_nonpos; lia | assumption]. }
  assert (H0 : 0 <= n) by lia. clear Hn. revert s Hs.
  pattern n. apply natlike_ind; [ | | exact H0].
  - intros s Hs. exists s. split; [reflexivity | assumption].
  - intros m Hm IH s Hs. rewrite for_loop_step by lia.
    destruct (Hbody s Hs) as (y & -> & Hy). simpl.
    replace (Z.succ m - 1) with m by lia. apply IH, Hy.
Qed.

Lemma for_loop_fixed n body s : body s = Some s -> for_loop n body s = Some s.
Proof.
  intros Hb.
  destruct (for_loop_inv (fun x => x = s) n body s) as (y & Hy & ->); [reflexivity | | exact Hy].
  intros x ->. exists s. split; [exact Hb | reflexivity].
Qed.

End LoopFacts.

Lemma to_size_t_small z : 0 <= z <= SIZE_MAX -> to_size_t z = z.
Proof. unfold to_size_t, SIZE_MAX. intros Hz. apply Z.mod_small. lia. Qed.

Lemma to_int_small z : in_int z -> to_int z = z.
Proof.
  unfold to_int, in_int, INT_MIN, INT_MAX. intros Hz.
  rewrite Z.mod_small; lia.
Qed.

Lemma to_size_t_nonneg z : 0 <= to_size_t z.
Proof. unfold to_size_t. apply Z.mod_pos_bound. lia. Qed.

Lemma to_size_t_minus_one : to_size_t (-1) = SIZE_MAX.
Proof. reflexivity. Qed.

Lemma size_nonneg {T} (v : list T) : 0 <= size v.
Proof. unfold size. lia. Qed.

Lemma size_app {T} (v1 v2 : list T) : size (v1 ++ v2) = size v1 + size v2.
Proof. unfold size. rewrite length_app. lia. Qed.

Lemma size_cons {T} (x : T) (v : list T) : size (x :: v) = size v + 1.
Proof. unfold size. simpl. lia. Qed.

Lemma at_lookup {T} (v : list T) (i : nat) : at_ v (Z.of_nat i) = v !! i.
Proof.
  unfold at_, size. rewrite Nat2Z.id. case_bool_decide as Hi; [reflexivity | ].
  symmetry. apply lookup_ge_None. lia.
Qed.

Lemma pop_back_snoc {T} (v : list T) (x : T) : pop_back (v ++ [x]) = Some v.
Proof.
  unfold pop_back. destruct (v ++ [x]) eqn:E.
  - destruct v; discriminate.
  - rewrite <- E. f_equal. rewrite length_app. simpl.
    replace (length v + 1 - 1)%nat with (length v) by lia.
    apply take_app_length.
Qed.

(** ** Subscription *)

Section SubscribeFacts.
Context {F A : Type}.
Implicit Types (d : DelegateBase F A) (es : list (F * A)).

Lemma subscribe_pairs_spec es d :
  subscribers (subscribe_pairs es d) = subscribers d ++ es.*1 /\
  parameters (subscribe_pairs es d) =
    parameters d ++ snapshots_from (size (subscribers d)) es.
Proof.
  revert d. induction es as [|e es IH]; intros d.
  - unfold snapshots_from. simpl. rewrite !app_nil_r. split; reflexivity.
  - simpl. destruct (IH (Subscribe e.1 e.2 d)) as [IHs IHp].
    fold (subscribe_pairs es (Subscribe e.1 e.2 d)). rewrite IHs, IHp. simpl.
    unfold push_back. rewrite <- !app_assoc. simpl. split; [reflexivity | ].
    f_equal. unfold snapshots_from. simpl. f_equal.
    + do 2 f_equal. rewrite size_app. simpl. unfold size. simpl. lia.
    + apply imap_ext. intros i x _. simpl. do 2 f_equal.
      rewrite size_app. unfold size. simpl. lia.
Qed.

Lemma subscribe_call_pairs (c : subscription F A) d :
  subscribe_call c d = subscribe_pairs (pairs_subscribed c) d.
Proof.
  destruct c as [f a | fs a | f ps]; simpl.
  - reflexivity.
  - unfold Subscribe_functions. revert d. induction fs as [|f fs IH]; intros d; simpl.
    + reflexivity.
    + apply IH.
  - unfold Subscribe_packs. revert d. induction ps as [|p ps IH]; intros d; simpl.
    + reflexivity.
    + apply IH.
Qed.

Lemma subscribe_calls_pairs (cs : list (subscription F A)) d :
  subscribe_calls cs d = subscribe_pairs (concat (map pairs_subscribed cs)) d.
Proof.
  revert d. induction cs as [|c cs IH]; intros d; simpl.
  - reflexivity.
  - unfold subscribe_pairs. rewrite foldl_app.
    fold (subscribe_pairs (pairs_subscribed c) d). rewrite <- subscribe_call_pairs.
    apply IH.
Qed.

(** C2 (amended): a sequence of [Subscribe] calls appends, for each
    (callable, argument tuple) pair it subscribes, one callable and one
    snapshot holding the index of that callable as a [size_t] and the
    tuple; the initializer-list overload subscribes one pair per callable
    for its single tuple.  From the empty registry both vectors end up
    as long as the number of pairs. *)
Theorem Subscribe_appends_pairs (cs : list (subscription F A)) d :
  let es := concat (map pairs_subscribed cs) in
  subscribers (subscribe_calls cs d) = subscribers d ++ es.*1 /\
  parameters (subscribe_calls cs d) =
    parameters d ++ snapshots_from (size (subscribers d)) es /\
  length (subscribers (subscribe_calls cs empty_delegate)) = length es /\
  length (parameters (subscribe_calls cs empty_delegate)) = length es.
Proof.
  intros es. rewrite !subscribe_calls_pairs. fold es.
  destruct (subscribe_pairs_spec es d) as [Hs Hp].
  destruct (subscribe_pairs_spec es empty_delegate) as [Hs0 Hp0].
  rewrite Hs, Hp, Hs0, Hp0. simpl. unfold snapshots_from.
  rewrite length_fmap, length_imap. repeat split; reflexivity.
Qed.

End SubscribeFacts.

(** C2 (as stated) fails: [del.Subscribe({lambda1, lambda2, lambda3}, 21)]
    is given one argument tuple and leaves three callables and three
    snapshots. *)
Lemma Subscribe_functions_one_tuple_three_entries :
  let cs := [Functions [lambda1; lambda2; lambda3] 21] in
  length (concat (map tuples_provided cs)) = 1%nat /\
  length (subscribers (subscribe_calls cs empty_delegate)) = 3%nat /\
  length (parameters (subscribe_calls cs empty_delegate)) = 3%nat /\
  length (subscribers (subscribe_calls cs empty_delegate)) <>
    length (concat (map tuples_provided cs)).
Proof. vm_compute. repeat split; [reflexivity .. | discriminate]. Qed.

(** ** Duplication and single removal *)

(** C7: [++del] inserts a copy of the front callable at position 0 and
    attaches a snapshot with the first snapshot's pack; [del++] appends a
    copy of the back callable and attaches a snapshot with the last
    snapshot's pack.  Either new snapshot is tagged with the last position
    of [subscribers].  After [Subscribe(f, {4, 6, 8})], [del++] and
    [Invoke()] call [f] with 4, 6, 8, 8.  Without a saved pack only the
    callable is duplicated, and both operators leave a delegate without
    subscribers as it is. *)
Theorem duplicate_first_and_last {F A} (newDel f : F) (rest : list F)
    (p : FunctionParams A) (ps : list (FunctionParams A)) :
  pre_increment (mkDelegateBase (newDel :: rest) (p :: ps)) =
    mkDelegateBase (newDel :: newDel :: rest)
      ((p :: ps) ++
       [FunctionParams.make (to_size_t (size (newDel :: newDel :: rest) - 1))
          (FunctionParams.parameters p)]) /\
  post_increment (mkDelegateBase (rest ++ [newDel]) (ps ++ [p])) =
    mkDelegateBase ((rest ++ [newDel]) ++ [newDel])
      ((ps ++ [p]) ++
       [FunctionParams.make (to_size_t (size ((rest ++ [newDel]) ++ [newDel]) - 1))
          (FunctionParams.parameters p)]) /\
  Invoke logged (post_increment (Subscribe_packs f [4; 6; 8] empty_delegate)) [] =
    Some [(f, 4); (f, 6); (f, 8); (f, 8)] /\
  pre_increment (mkDelegateBase (newDel :: rest) (@nil (FunctionParams A))) =
    mkDelegateBase (newDel :: newDel :: rest) [] /\
  post_increment (mkDelegateBase (rest ++ [newDel]) (@nil (FunctionParams A))) =
    mkDelegateBase ((rest ++ [newDel]) ++ [newDel]) [] /\
  pre_increment (mkDelegateBase (@nil F) ps) = mkDelegateBase [] ps /\
  post_increment (mkDelegateBase (@nil F) ps) = mkDelegateBase [] ps.
Proof.
  repeat split.
  - unfold post_increment. simpl. rewrite !last_snoc. reflexivity.
  - unfold post_increment. simpl. rewrite last_snoc. reflexivity.
Qed.

Lemma pre_post_decrement_eq {F A} (d : DelegateBase F A) :
  pre_decrement d = post_decrement d.
Proof. reflexivity. Qed.

Lemma decrement_last_snapshot {F A} (subs : list F) (ps : list (FunctionParams A))
    (back : FunctionParams A) :
  0 <= FunctionParams.index back < size subs ->
  FunctionParams.index back <= INT_MAX ->
  pre_decrement (mkDelegateBase subs (ps ++ [back])) =
    Some (mkDelegateBase (delete (Z.to_nat (FunctionParams.index back)) subs) ps).
Proof.
  intros Hi Hmax. unfold pre_decrement. simpl.
  destruct subs as [|f subs]; [unfold size in Hi; simpl in Hi; lia | ].
  rewrite last_snoc, pop_back_snoc. simpl.
  rewrite to_int_small by (unfold in_int, INT_MIN; lia).
  unfold erase. rewrite bool_decide_eq_true_2 by exact Hi. reflexivity.
Qed.

(** C8: on a delegate whose last snapshot holds the index of a subscriber,
    [--del] and [del--] give the same state: the last snapshot is removed
    and the callable at its index is erased. *)
Theorem decrements_coincide {F A} (subs : list F) (ps : list (FunctionParams A))
    (back : FunctionParams A) :
  0 <= FunctionParams.index back < size subs ->
  FunctionParams.index back <= INT_MAX ->
  pre_decrement (mkDelegateBase subs (ps ++ [back])) =
    post_decrement (mkDelegateBase subs (ps ++ [back])) /\
  pre_decrement (mkDelegateBase subs (ps ++ [back])) =
    Some (mkDelegateBase (delete (Z.to_nat (FunctionParams.index back)) subs) ps) /\
  post_decrement (mkDelegateBase subs (ps ++ [back])) =
    Some (mkDelegateBase (delete (Z.to_nat (FunctionParams.index back)) subs) ps).
Proof.
  intros Hi Hmax.
  pose proof (decrement_last_snapshot subs ps back Hi Hmax) as Hpre.
  split; [apply pre_post_decrement_eq | ].
  split; [exact Hpre | ].
  etransitivity; [symmetry; apply pre_post_decrement_eq | exact Hpre].
Qed.

(** Both decrements on the delegate of [Subscribe(..., {4, 6, 8})]. *)
Lemma decrements_coincide_witness :
  let subs := [lambda1; lambda2; lambda3] in
  let ps := [FunctionParams.make 0 4; FunctionParams.make 1 6] in
  let back := FunctionParams.make 2 8 in
  (0 <= FunctionParams.index back < size subs) /\
  FunctionParams.index back <= INT_MAX /\
  pre_decrement (mkDelegateBase subs (ps ++ [back])) =
    post_decrement (mkDelegateBase subs (ps ++ [back])) /\
  pre_decrement (mkDelegateBase subs (ps ++ [back])) =
    Some (mkDelegateBase [lambda1; lambda2] ps).
Proof.
  intros subs ps back.
  assert (Hi : 0 <= FunctionParams.index back < size subs) by by_evaluation.
  assert (Hmax : FunctionParams.index back <= INT_MAX) by by_evaluation.
  destruct (decrements_coincide subs ps back Hi Hmax) as (Heq & Hpre & _).
  repeat split; try assumption; apply Hi.
Defined.

(** ** Invocation with fresh arguments *)

Section CallFacts.
Context {F A R W : Type} `{Additive R}.
Variable call : F -> A -> W -> R * W.

Lemma sum_loop (fs : list F) (params : A) (sum : R) (w : W) :
  foldl (fun acc i => let rw := call i params acc.2 in (plus_assign acc.1 rw.1, rw.2))
    (sum, w) fs =
  (foldl plus_assign sum (call_each call fs params w).1, (call_each call fs params w).2).
Proof.
  revert sum w. induction fs as [|f fs IH]; intros sum w; simpl.
  - reflexivity.
  - apply IH.
Qed.

End CallFacts.

(** C9: [operator()] of [RetDelegate] and of [RetMemberDelegate] returns
    the results of calling every subscriber, in the order of
    [subscribers], with the given arguments (and object), summed with
    [+=] from a value-initialised [ReturnType]; without subscribers it
    returns that initial value. *)
Theorem call_operator_sums_results {F M O A R W : Type} `{Additive R}
    (call : F -> A -> W -> R * W) (call_member : M -> O -> A -> W -> R * W)
    (d : DelegateBase F A) (md : MemberDelegateBase M O A) (obj : O) (params : A) (w : W)
    (ps : list (FunctionParams A)) (mps : list (MemberFunctionParams O A)) :
  RetDelegate_call call d params w =
    (sum_results (call_each call (subscribers d) params w).1,
     (call_each call (subscribers d) params w).2) /\
  RetMemberDelegate_call call_member md obj params w =
    (sum_results
       (call_each (fun m => call_member m obj) (MemberDelegateBase.subscribers md) params w).1,
     (call_each (fun m => call_member m obj) (MemberDelegateBase.subscribers md) params w).2) /\
  RetDelegate_call call (mkDelegateBase (@nil F) ps) params w = (value_init, w) /\
  RetMemberDelegate_call call_member (MemberDelegateBase.make (@nil M) mps) obj params w =
    (value_init, w).
Proof.
  repeat split.
  - apply sum_loop.
  - apply (sum_loop (fun m => call_member m obj)).
Qed.

(** ** Combining and transferring *)

Section CombineFacts.
Context {F A : Type}.
Implicit Types (h : gmap nat (DelegateBase F A)) (t o : DelegateBase F A).

Lemma snapshots_from_parameters n (es : list (F * A)) :
  FunctionParams.parameters <$> snapshots_from n es = es.*2.
Proof.
  unfold snapshots_from. rewrite fmap_imap. apply (imap_const snd).
Qed.

(** With distinct receiver and argument, the loop of [Combine] copies
    the remaining pairs of the argument and stops. *)
Lemma Combine_loop_distinct fuel this other (i : nat) h t o :
  this <> other -> h !! this = Some t -> h !! other = Some o ->
  (length (subscribers o) <= length (parameters o))%nat ->
  (length (subscribers o) - i < fuel)%nat ->
  Combine_loop fuel this other (Z.of_nat i) h =
    Done (<[this :=
             subscribe_pairs
               (drop i (zip (subscribers o) (FunctionParams.parameters <$> parameters o))) t]> h).
Proof.
  intros Hne. revert i h t.
  induction fuel as [|fuel IH]; intros i h t Ht Ho Hlen Hfuel; [lia | ].
  simpl. rewrite Ho. unfold size. case_bool_decide as Hi.
  - assert (Hi' : (i < length (subscribers o))%nat) by lia.
    destruct (lookup_lt_is_Some_2 (subscribers o) i Hi') as [f Hf].
    destruct (lookup_lt_is_Some_2 (parameters o) i ltac:(lia)) as [p Hp].
    rewrite !at_lookup, Hf, Ht. rewrite lookup_insert_ne by exact Hne.
    rewrite Ho. simpl. rewrite at_lookup, Hp, lookup_insert_eq.
    replace (Z.of_nat i + 1) with (Z.of_nat (Datatypes.S i)) by lia.
    rewrite (IH (Datatypes.S i) _ (AttachParameters (FunctionParams.parameters p) (push_subscriber f t))).
    + rewrite !insert_insert_eq. do 2 f_equal.
      erewrite (drop_S _ (f, FunctionParams.parameters p) i).
      * reflexivity.
      * apply lookup_zip_Some. split; [exact Hf | ].
        rewrite list_lookup_fmap, Hp. reflexivity.
    + apply lookup_insert_eq.
    + rewrite !lookup_insert_ne by exact Hne. exact Ho.
    + exact Hlen.
    + lia.
  - rewrite drop_ge.
    + simpl. rewrite insert_id by exact Ht. reflexivity.
    + rewrite length_zip, length_fmap. lia.
Qed.

Lemma Combine_distinct fuel this other h t o :
  this <> other -> h !! this = Some t -> h !! other = Some o ->
  (length (subscribers o) <= length (parameters o))%nat ->
  (length (subscribers o) < fuel)%nat ->
  Combine fuel this other h =
    Done (<[this :=
             subscribe_pairs
               (zip (subscribers o) (FunctionParams.parameters <$> parameters o)) t]> h).
Proof.
  intros Hne Ht Ho Hlen Hfuel. unfold Combine.
  change 0 with (Z.of_nat 0).
  rewrite (Combine_loop_distinct fuel this other 0 h t o) by (assumption || lia).
  reflexivity.
Qed.

Lemma shift_right_left fuel (this rhs : nat) h :
  shift_right fuel this rhs h = shift_left fuel rhs this h.
Proof. reflexivity. Qed.

(** C5: with [b] holding a pack for each of its subscribers,
    [a.Combine(b)] leaves [b] as it was and gives [a] the callables of
    [b] after its own, with the packs of [b] in order; [a << b]
    moreover clears [b]; [a << a] changes nothing. *)
Theorem Combine_and_transfer h (a b : nat) (da db : DelegateBase F A) (fuel : nat) :
  a <> b -> h !! a = Some da -> h !! b = Some db ->
  (length (subscribers db) <= length (parameters db))%nat ->
  (length (subscribers db) < fuel)%nat ->
  let es := zip (subscribers db) (FunctionParams.parameters <$> parameters db) in
  let da' := mkDelegateBase (subscribers da ++ subscribers db)
               (parameters da ++ snapshots_from (size (subscribers da)) es) in
  Combine fuel a b h = Done (<[a := da']> h) /\
  (<[a := da']> h) !! b = Some db /\
  shift_left fuel a b h = Done (<[b := empty_delegate]> (<[a := da']> h)) /\
  length (subscribers da') = (length (subscribers da) + length (subscribers db))%nat /\
  FunctionParams.parameters <$> parameters da' =
    (FunctionParams.parameters <$> parameters da) ++
    take (length (subscribers db)) (FunctionParams.parameters <$> parameters db) /\
  shift_left fuel a a h = Done h.
Proof.
  intros Hne Ha Hb Hlen Hfuel es da'.
  assert (Hes1 : es.*1 = subscribers db).
  { apply fst_zip. rewrite length_fmap. exact Hlen. }
  assert (Hda' : subscribe_pairs es da = da').
  { destruct (subscribe_pairs_spec es da) as [Hs Hp].
    destruct (subscribe_pairs es da) as [s p]. simpl in Hs, Hp.
    unfold da'. rewrite Hs, Hp, Hes1. reflexivity. }
  assert (Hcombine : Combine fuel a b h = Done (<[a := da']> h)).
  { rewrite (Combine_distinct fuel a b h da db) by assumption. fold es. rewrite Hda'. reflexivity. }
  assert (Hb' : (<[a := da']> h) !! b = Some db).
  { rewrite lookup_insert_ne by exact Hne. exact Hb. }
  repeat split.
  - exact Hcombine.
  - exact Hb'.
  - unfold shift_left, transfer. rewrite bool_decide_eq_true_2 by exact Hne.
    rewrite Hcombine, Hb'. reflexivity.
  - simpl. apply length_app.
  - simpl. rewrite fmap_app, snapshots_from_parameters. f_equal.
    unfold es. clear. generalize (FunctionParams.parameters <$> parameters db) as k.
    induction (subscribers db) as [|f fs IH]; intros [|x k]; simpl; try reflexivity.
    f_equal. apply IH.
  - unfold shift_left, transfer. rewrite bool_decide_eq_false_2 by (intros Hc; apply Hc; reflexivity).
    reflexivity.
Qed.

End CombineFacts.

(** The README's [del1 << del2]. *)
Lemma Combine_and_transfer_witness :
  let h : gmap nat (DelegateBase lambda Z) :=
    <[2%nat := Subscribe_packs lambda2 [-2; -6] empty_delegate]>
      (<[1%nat := Subscribe_packs lambda1 [10; 15] empty_delegate]> ∅) in
  exists h', shift_left 3 1 2 h = Done h' /\
    subscribers <$> h' !! 1%nat = Some [lambda1; lambda1; lambda2; lambda2] /\
    h' !! 2%nat = Some empty_delegate.
Proof.
  intros h.
  assert (Hne : 1%nat <> 2%nat) by discriminate.
  assert (Ha : h !! 1%nat = Some (Subscribe_packs lambda1 [10; 15] empty_delegate))
    by (vm_compute; reflexivity).
  assert (Hb : h !! 2%nat = Some (Subscribe_packs lambda2 [-2; -6] empty_delegate))
    by (vm_compute; reflexivity).
  destruct (Combine_and_transfer h 1 2 _ _ 3 Hne Ha Hb (le_n 2) (le_n 3))
    as (_ & _ & Hshift & _).
  eexists. split; [exact Hshift | ]. split; vm_compute; reflexivity.
Defined.

(** ** Removal *)

Lemma to_size_t_negative z : - 2 ^ 64 <= z < 0 -> to_size_t z = z + 2 ^ 64.
Proof.
  intros Hz. unfold to_size_t.
  rewrite <- (Z.mod_add z 1 (2 ^ 64)) by lia.
  rewrite Z.mod_small; lia.
Qed.

Section RemoveFacts.
Context {F A : Type}.
Implicit Types (d : DelegateBase F A).

Lemma DetachParameters_defined index d :
  size (parameters d) <= INT_MAX ->
  exists d', DetachParameters index d = Some d' /\
    subscribers d' = subscribers d /\
    size (parameters d') <= size (parameters d).
Proof.
  intros Hmax. unfold DetachParameters.
  pose proof (length_filter (fun x => FunctionParams.index x = index) (parameters d)) as H1.
  pose proof (length_filter (fun x => FunctionParams.index x <> index) (parameters d)) as H2.
  rewrite bool_decide_eq_true_2 by (unfold size in *; lia).
  case_bool_decide; eexists; (split; [reflexivity | ]); simpl; (split; [reflexivity | ]);
    unfold size; rewrite ?length_map; lia.
Qed.

(** The loops that detach parameters never touch [subscribers]. *)
Lemma detach_loop_defined n (body : DelegateBase F A -> option (DelegateBase F A)) d :
  (forall x, size (parameters x) <= INT_MAX ->
     exists y, body x = Some y /\ subscribers y = subscribers x /\
       size (parameters y) <= size (parameters x)) ->
  size (parameters d) <= INT_MAX ->
  exists d', for_loop n body d = Some d' /\
    subscribers d' = subscribers d /\ size (parameters d') <= INT_MAX.
Proof.
  intros Hbody Hmax.
  apply (for_loop_inv
           (fun x => subscribers x = subscribers d /\ size (parameters x) <= INT_MAX)).
  - split; [reflexivity | exact Hmax].
  - intros x [Hs Hx]. destruct (Hbody x Hx) as (y & Hy & Hys & Hyp).
    exists y. repeat split; [exact Hy | congruence | lia].
Qed.

Lemma pop_subscriber_snoc (subs : list F) (x : F) (ps : list (FunctionParams A)) :
  pop_subscriber (mkDelegateBase (subs ++ [x]) ps) = Some (mkDelegateBase subs ps).
Proof. unfold pop_subscriber. simpl subscribers. rewrite pop_back_snoc. reflexivity. Qed.

(** Popping [k] subscribers keeps the others, in order. *)
Lemma pop_loop k (subs : list F) (ps : list (FunctionParams A)) :
  0 <= k <= size subs ->
  for_loop k pop_subscriber (mkDelegateBase subs ps) =
    Some (mkDelegateBase (take (Z.to_nat (size subs - k)) subs) ps).
Proof.
  intros [Hk Hle]. revert subs Hle. pattern k. apply natlike_ind; [ | | exact Hk].
  - intros subs _. rewrite for_loop_nonpos by lia.
    rewrite take_ge by (unfold size; lia). reflexivity.
  - intros m Hm IH subs Hle. rewrite for_loop_step by lia.
    induction subs as [|x subs' _] using rev_ind.
    { unfold size in Hle. simpl in Hle. lia. }
    rewrite pop_subscriber_snoc. simpl.
    rewrite size_app in Hle |- *. unfold size in Hle at 2. simpl in Hle.
    replace (Z.succ m - 1) with m by lia. rewrite IH by lia.
    do 2 f_equal. unfold size at 3. simpl.
    rewrite take_app_le by (unfold size; lia). f_equal. lia.
Qed.

(** C10: a negative [count] is converted to a [size_t] above any size of
    [subscribers], so the removal from the back takes the other branch
    of the clamp and pops all subscribers but the first. *)
Theorem Remove_negative_count_from_back (count : Z) d :
  in_int count -> count < 0 ->
  1 <= size (subscribers d) -> size (subscribers d) - 1 <= INT_MAX ->
  size (parameters d) <= INT_MAX ->
  exists d', Remove count true d = Some d' /\
    subscribers d' = take 1 (subscribers d) /\
    size (subscribers d') = size (subscribers d) - (size (subscribers d) - 1).
Proof.
  intros Hint Hneg Hn Hnmax Hpmax. unfold Remove, in_int, INT_MIN, INT_MAX in *.
  rewrite bool_decide_eq_false_2 by (rewrite to_size_t_negative; lia).
  rewrite (to_size_t_small (size (subscribers d) - 1)) by (unfold SIZE_MAX; lia).
  rewrite to_int_small by (unfold in_int, INT_MIN, INT_MAX; lia).
  rewrite to_size_t_small by (unfold SIZE_MAX; lia).
  simpl negb. cbv iota.
  destruct (detach_loop_defined (size (subscribers d) - 1) detach_last d)
    as (d1 & -> & Hs1 & _).
  { intros x Hx. apply DetachParameters_defined. exact Hx. }
  { exact Hpmax. }
  simpl. destruct d1 as [subs1 ps1]. simpl in Hs1. subst subs1.
  rewrite pop_loop by lia.
  eexists. split; [reflexivity | ]. simpl.
  replace (Z.to_nat (size (subscribers d) - (size (subscribers d) - 1))) with 1%nat by lia.
  split; [reflexivity | ].
  unfold size in *. rewrite length_take. lia.
Qed.

(** C6 (the code at the failing input): [Remove] from the back of a
    delegate without subscribers clamps to [size() - 1], which wraps;
    the first [pop_back] finds the vector empty.  The guarded operators
    and the removal by value leave the empty delegate as it is. *)
Theorem Remove_on_empty_delegate (count : Z) `{EqDecision F} (rhs : F) :
  Remove count true (@empty_delegate F A) = None /\
  pre_decrement (@empty_delegate F A) = Some empty_delegate /\
  post_decrement (@empty_delegate F A) = Some empty_delegate /\
  sub_assign rhs (@empty_delegate F A) = empty_delegate.
Proof.
  split; [ | repeat split].
  unfold Remove. simpl subscribers.
  rewrite bool_decide_eq_false_2
    by (pose proof (to_size_t_nonneg count); unfold size; simpl; lia).
  change (to_size_t (to_int (to_size_t (size (@nil F) - 1)))) with SIZE_MAX.
  simpl negb. cbv iota.
  set (detached := for_loop SIZE_MAX detach_last empty_delegate).
  assert (Hdetached : detached = Some empty_delegate)
    by (apply for_loop_fixed; reflexivity).
  clearbody detached. subst detached.
  cbn [mbind option_bind]. apply for_loop_fail; reflexivity.
Qed.

(** From the front of a delegate without subscribers the detaching loop
    finds nothing to do, and any erasure but the empty one is out of
    range. *)
Lemma Remove_from_front_on_empty_delegate (count : Z) :
  count <> 0 -> Remove count false (@empty_delegate F A) = None.
Proof.
  intros Hcount. unfold Remove. simpl subscribers.
  rewrite bool_decide_eq_false_2
    by (pose proof (to_size_t_nonneg count); unfold size; simpl; lia).
  change (to_size_t (to_int (to_size_t (size (@nil F) - 1)))) with SIZE_MAX.
  simpl negb. cbv iota.
  set (detached := for_loop SIZE_MAX (DetachParameters 0) empty_delegate).
  assert (Hdetached : detached = Some empty_delegate)
    by (apply for_loop_fixed; reflexivity).
  clearbody detached. subst detached.
  cbn [mbind option_bind]. simpl subscribers. unfold erase_prefix.
  rewrite bool_decide_eq_false_2 by (unfold size; simpl; lia). reflexivity.
Qed.

End RemoveFacts.

(** [Remove(-1)] on the README's delegate of five callables. *)
Lemma Remove_negative_count_from_back_witness :
  let d := Subscribe_packs lambda2 [-5; -7] (Subscribe_packs lambda1 [4; 6; 8] empty_delegate) in
  in_int (-1) /\ -1 < 0 /\ 1 <= size (subscribers d) /\
  exists d', Remove (-1) true d = Some d' /\ subscribers d' = [lambda1].
Proof.
  intros d.
  assert (H1 : in_int (-1)) by by_evaluation.
  assert (H2 : -1 < 0) by by_evaluation.
  assert (H3 : 1 <= size (subscribers d)) by by_evaluation.
  assert (H4 : size (subscribers d) - 1 <= INT_MAX) by by_evaluation.
  assert (H5 : size (parameters d) <= INT_MAX) by by_evaluation.
  destruct (Remove_negative_count_from_back (-1) d H1 H2 H3 H4 H5) as (d' & Hd' & Hs & _).
  repeat split; try assumption; try apply H1.
  exists d'. split; [exact Hd' | exact Hs].
Defined.

(** ** Aligned delegates under the operations *)

Section FilterFacts.
Context {T : Type} (P : T -> Prop) `{forall x, Decision (P x)}.

Lemma filter_keeps_all (l : list T) : Forall P l -> filter P l = l.
Proof.
  induction 1 as [|x l Hx Hl IH]; [reflexivity | ].
  rewrite filter_cons_True by exact Hx. rewrite IH. reflexivity.
Qed.

Lemma filter_drops_all (l : list T) : Forall (fun x => ~ P x) l -> filter P l = [].
Proof.
  induction 1 as [|x l Hx Hl IH]; [reflexivity | ].
  rewrite filter_cons_False by exact Hx. exact IH.
Qed.

End FilterFacts.

Section CountedFacts.
Context {A : Type}.
Implicit Types (ps : list (FunctionParams A)) (p : FunctionParams A).

Lemma counted_lookup ps (i : nat) p :
  counted ps -> ps !! i = Some p -> FunctionParams.index p = Z.of_nat i.
Proof.
  intros Hc Hp. pose proof (f_equal (fun l => l !! i) Hc) as Hi. simpl in Hi.
  rewrite !list_lookup_fmap, Hp in Hi.
  rewrite lookup_seq_lt in Hi by (eapply lookup_lt_Some; exact Hp).
  simpl in Hi. congruence.
Qed.

Lemma counted_iff ps :
  counted ps <-> forall (i : nat) p, ps !! i = Some p -> FunctionParams.index p = Z.of_nat i.
Proof.
  split; [intros Hc i p; apply counted_lookup; exact Hc | ].
  intros Hall. apply list_eq. intros i. rewrite !list_lookup_fmap.
  destruct (ps !! i) as [p|] eqn:Hp; simpl.
  - rewrite lookup_seq_lt by (eapply lookup_lt_Some; exact Hp).
    simpl. f_equal. apply Hall, Hp.
  - rewrite lookup_seq_ge by (apply lookup_ge_None; exact Hp). reflexivity.
Qed.

Lemma counted_snoc ps p :
  counted (ps ++ [p]) <-> counted ps /\ FunctionParams.index p = Z.of_nat (length ps).
Proof.
  rewrite !counted_iff. split.
  - intros Hall. split.
    + intros i x Hx. apply Hall. rewrite lookup_app_l by (eapply lookup_lt_Some; exact Hx).
      exact Hx.
    + apply Hall. rewrite lookup_app_r by lia. rewrite Nat.sub_diag. reflexivity.
  - intros [Hall Hp] i x Hx. apply lookup_snoc_Some in Hx as [[_ Hx] | [-> ->]].
    + apply Hall, Hx.
    + exact Hp.
Qed.

Lemma counted_take (k : nat) ps : counted ps -> counted (take k ps).
Proof.
  rewrite !counted_iff. intros Hall i p Hp.
  apply lookup_take_Some in Hp as [Hp _]. apply Hall, Hp.
Qed.

Lemma counted_below ps : counted ps ->
  Forall (fun p => 0 <= FunctionParams.index p < size ps) ps.
Proof.
  intros Hc. apply Forall_lookup. intros i p Hp.
  rewrite (counted_lookup ps i p Hc Hp).
  apply lookup_lt_Some in Hp. unfold size. lia.
Qed.

Lemma counted_filter_last ps p :
  counted (ps ++ [p]) ->
  filter (fun x => FunctionParams.index x = Z.of_nat (length ps)) (ps ++ [p]) = [p] /\
  filter (fun x => FunctionParams.index x <> Z.of_nat (length ps)) (ps ++ [p]) = ps.
Proof.
  intros [Hc Hp]%counted_snoc. pose proof (counted_below ps Hc) as Hlt.
  rewrite !filter_app. split.
  - rewrite filter_drops_all.
    + rewrite filter_cons_True by exact Hp. reflexivity.
    + eapply Forall_impl; [exact Hlt | ]. unfold size. simpl. intros x Hx. lia.
  - rewrite filter_keeps_all.
    + rewrite filter_cons_False by (intros Hc'; apply Hc'; exact Hp). apply app_nil_r.
    + eapply Forall_impl; [exact Hlt | ]. unfold size. simpl. intros x Hx. lia.
Qed.

Lemma counted_filter_first p ps :
  counted (p :: ps) ->
  filter (fun x => FunctionParams.index x = 0) (p :: ps) = [p] /\
  filter (fun x => FunctionParams.index x <> 0) (p :: ps) = ps.
Proof.
  intros Hc. pose proof (counted_lookup _ 0 p Hc eq_refl) as Hp. simpl in Hp.
  assert (Hpos : Forall (fun x => FunctionParams.index x <> 0) ps).
  { apply Forall_lookup. intros i x Hx.
    rewrite (counted_lookup (p :: ps) (Datatypes.S i) x Hc Hx). lia. }
  split.
  - rewrite filter_cons_True by exact Hp. rewrite filter_drops_all; [reflexivity | ].
    eapply Forall_impl; [exact Hpos | ]. simpl. intros x Hx Hc'. apply Hx, Hc'.
  - rewrite filter_cons_False by (intros Hc'; apply Hc'; exact Hp).
    apply filter_keeps_all, Hpos.
Qed.

End CountedFacts.

Section AlignedFacts.
Context {F A : Type}.
Implicit Types (d : DelegateBase F A) (subs : list F)
  (ps : list (FunctionParams A)) (p : FunctionParams A).

Lemma aligned_I1 d : aligned d -> I1 d.
Proof.
  intros [Hc Hlen]. unfold I1. eapply Forall_impl; [apply counted_below, Hc | ].
  simpl. unfold size. intros p Hp. lia.
Qed.

(** On a counted vector [DetachParameters(parameters.size() - 1)] drops
    the last pack. *)
Lemma detach_last_counted subs ps :
  counted ps -> size ps <= INT_MAX ->
  detach_last (mkDelegateBase subs ps) =
    Some (mkDelegateBase subs (take (length ps - 1) ps)).
Proof.
  intros Hc Hmax. induction ps as [|p ps _] using rev_ind; [reflexivity | ].
  destruct (counted_filter_last ps p Hc) as [Heq Hne].
  assert (Hidx : to_size_t (size (ps ++ [p]) - 1) = Z.of_nat (length ps)).
  { rewrite size_app in Hmax |- *. unfold size in Hmax |- *. simpl length in *.
    rewrite to_size_t_small by (unfold SIZE_MAX, INT_MAX in *; lia). lia. }
  unfold detach_last, DetachParameters. simpl parameters. simpl subscribers.
  rewrite Hidx, Heq, Hne. rewrite bool_decide_eq_true_2 by by_evaluation.
  rewrite length_app. simpl length.
  replace (length ps + 1 - 1)%nat with (length ps) by lia.
  rewrite take_app_length.
  case_bool_decide as Hpos; [reflexivity | ].
  destruct ps; [reflexivity | simpl in Hpos; lia].
Qed.

Lemma detach_last_loop k subs ps :
  counted ps -> size ps <= INT_MAX -> 0 <= k ->
  for_loop k detach_last (mkDelegateBase subs ps) =
    Some (mkDelegateBase subs (take (Z.to_nat (size ps - k)) ps)).
Proof.
  intros Hc Hmax Hk. revert ps Hc Hmax. pattern k. apply natlike_ind; [ | | exact Hk].
  - intros ps _ _. rewrite for_loop_nonpos by lia.
    rewrite take_ge by (unfold size; lia). reflexivity.
  - intros m Hm IH ps Hc Hmax. rewrite for_loop_step by lia.
    rewrite detach_last_counted by assumption. simpl.
    replace (Z.succ m - 1) with m by lia.
    rewrite IH.
    + do 2 f_equal. rewrite take_take. f_equal.
      unfold size. rewrite length_take. lia.
    + apply counted_take, Hc.
    + unfold size in *. rewrite length_take. lia.
Qed.

(** On a counted vector [DetachParameters(0)] drops the first pack and
    moves the others down by one. *)
Lemma DetachParameters_0_counted subs p ps :
  counted (p :: ps) -> size (p :: ps) <= INT_MAX ->
  exists ps', DetachParameters 0 (mkDelegateBase subs (p :: ps)) =
                Some (mkDelegateBase subs ps') /\
    counted ps' /\
    FunctionParams.parameters <$> ps' = FunctionParams.parameters <$> ps.
Proof.
  intros Hc Hmax. destruct (counted_filter_first p ps Hc) as [Heq Hne].
  unfold DetachParameters. simpl parameters. simpl subscribers.
  rewrite Heq, Hne. rewrite bool_decide_eq_true_2 by by_evaluation.
  rewrite bool_decide_eq_false_2 by lia.
  eexists. split; [reflexivity | ]. split.
  - apply counted_iff. intros i x Hx.
    apply list_lookup_fmap_Some_1 in Hx as (y & -> & Hy). simpl.
    rewrite (counted_lookup (p :: ps) (Datatypes.S i) y Hc Hy).
    apply lookup_lt_Some in Hy. rewrite size_cons in Hmax. unfold size in Hmax.
    change (to_size_t (size [p])) with 1.
    rewrite to_size_t_small by (unfold SIZE_MAX, INT_MAX in *; lia). lia.
  - rewrite <- list_fmap_compose. apply list_fmap_ext. intros i x _. reflexivity.
Qed.

Lemma detach_front_loop k subs ps :
  counted ps -> size ps <= INT_MAX -> 0 <= k <= size ps ->
  exists ps', for_loop k (DetachParameters 0) (mkDelegateBase subs ps) =
                Some (mkDelegateBase subs ps') /\
    counted ps' /\
    FunctionParams.parameters <$> ps' = drop (Z.to_nat k) (FunctionParams.parameters <$> ps).
Proof.
  intros Hc Hmax [Hk Hle]. revert ps Hc Hmax Hle. pattern k.
  apply natlike_ind; [ | | exact Hk].
  - intros ps Hc _ _. exists ps. rewrite for_loop_nonpos by lia.
    repeat split; exact Hc.
  - intros m Hm IH ps Hc Hmax Hle. rewrite for_loop_step by lia.
    destruct ps as [|p ps]; [unfold size in Hle; simpl in Hle; lia | ].
    destruct (DetachParameters_0_counted subs p ps Hc Hmax) as (ps1 & -> & Hc1 & Hargs1).
    simpl. replace (Z.succ m - 1) with m by lia.
    assert (Hlen1 : length ps1 = length ps).
    { rewrite <- (length_fmap FunctionParams.parameters ps1), Hargs1. apply length_fmap. }
    rewrite size_cons in Hmax, Hle. unfold size in *.
    destruct (IH ps1 Hc1) as (ps' & -> & Hc' & Hargs'); [lia | lia | ].
    exists ps'. repeat split; [exact Hc' | ].
    rewrite Hargs', Hargs1. replace (Z.to_nat (Z.succ m)) with (Datatypes.S (Z.to_nat m)) by lia.
    reflexivity.
Qed.

(** Removal from the back of an aligned delegate: the clamp, and the same
    number of packs and of callables taken from the end. *)
Lemma Remove_from_back_aligned (count : Z) d :
  aligned d -> 1 <= size (subscribers d) <= INT_MAX -> 0 <= count <= INT_MAX ->
  let left := Z.to_nat (size (subscribers d) - Z.min count (size (subscribers d) - 1)) in
  Remove count true d =
    Some (mkDelegateBase (take left (subscribers d)) (take left (parameters d))).
Proof.
  intros [Hc Hlen] Hn Hcount left. unfold Remove.
  assert (Hadj : to_size_t (to_int (if bool_decide (to_size_t count < size (subscribers d))
                                    then to_size_t count
                                    else to_size_t (size (subscribers d) - 1))) =
                 Z.min count (size (subscribers d) - 1)).
  { unfold INT_MAX in *.
    rewrite (to_size_t_small count) by (unfold SIZE_MAX; lia).
    rewrite (to_size_t_small (size (subscribers d) - 1)) by (unfold SIZE_MAX; lia).
    case_bool_decide; rewrite to_int_small by (unfold in_int, INT_MIN, INT_MAX; lia);
      rewrite to_size_t_small by (unfold SIZE_MAX; lia); lia. }
  rewrite Hadj. simpl negb. cbv iota.
  destruct d as [subs ps]. simpl in *.
  assert (Hsize : size ps = size subs) by (unfold size; lia).
  rewrite detach_last_loop by (assumption || lia). simpl.
  rewrite pop_loop by lia. rewrite Hsize. reflexivity.
Qed.

(** Removal of fewer callables than there are from the front of an
    aligned delegate: the first [count] callables and packs go, the other
    packs are counted anew. *)
Lemma Remove_from_front_aligned (count : Z) d :
  aligned d -> size (subscribers d) <= INT_MAX -> 0 <= count < size (subscribers d) ->
  exists ps', Remove count false d =
                Some (mkDelegateBase (drop (Z.to_nat count) (subscribers d)) ps') /\
    counted ps' /\
    FunctionParams.parameters <$> ps' =
      drop (Z.to_nat count) (FunctionParams.parameters <$> parameters d).
Proof.
  intros [Hc Hlen] Hn Hcount. unfold Remove.
  assert (Hadj : to_size_t (to_int (if bool_decide (to_size_t count < size (subscribers d))
                                    then to_size_t count
                                    else to_size_t (size (subscribers d) - 1))) = count).
  { unfold INT_MAX in *.
    rewrite (to_size_t_small count) by (unfold SIZE_MAX; lia).
    rewrite bool_decide_eq_true_2 by lia.
    rewrite to_int_small by (unfold in_int, INT_MIN, INT_MAX; lia).
    apply to_size_t_small. unfold SIZE_MAX. lia. }
  rewrite Hadj. simpl negb. cbv iota. destruct d as [subs ps]. simpl in *.
  destruct (detach_front_loop count subs ps Hc) as (ps' & -> & Hc' & Hargs);
    [unfold size in *; lia .. | ].
  simpl. unfold erase_prefix. rewrite bool_decide_eq_true_2 by lia. simpl.
  exists ps'. repeat split; assumption.
Qed.

(** Removal of as many callables as there are from the front of an
    aligned delegate: the clamp stops the detaching one pack early, the
    erasure takes every callable, and the pack left has no callable. *)
Lemma Remove_from_front_whole d :
  aligned d -> 1 <= size (subscribers d) <= INT_MAX ->
  exists p, Remove (size (subscribers d)) false d = Some (mkDelegateBase [] [p]) /\
    FunctionParams.index p = 0 /\
    ~ I1 (mkDelegateBase (@nil F) [p]).
Proof.
  intros [Hc Hlen] Hn. unfold Remove.
  assert (Hadj : to_size_t (to_int (if bool_decide (to_size_t (size (subscribers d)) <
                                                    size (subscribers d))
                                    then to_size_t (size (subscribers d))
                                    else to_size_t (size (subscribers d) - 1))) =
                 size (subscribers d) - 1).
  { unfold INT_MAX in *.
    rewrite (to_size_t_small (size (subscribers d))) by (unfold SIZE_MAX; lia).
    rewrite bool_decide_eq_false_2 by lia.
    rewrite (to_size_t_small (size (subscribers d) - 1)) by (unfold SIZE_MAX; lia).
    rewrite to_int_small by (unfold in_int, INT_MIN, INT_MAX; lia).
    apply to_size_t_small. unfold SIZE_MAX. lia. }
  rewrite Hadj. simpl negb. cbv iota. destruct d as [subs ps]. simpl in *.
  destruct (detach_front_loop (size subs - 1) subs ps Hc) as (ps' & -> & Hc' & Hargs);
    [unfold size in *; lia .. | ].
  simpl. unfold erase_prefix. rewrite bool_decide_eq_true_2 by lia. simpl.
  unfold size. rewrite Nat2Z.id, drop_all.
  assert (Hlen' : length ps' = 1%nat).
  { rewrite <- (length_fmap FunctionParams.parameters ps'), Hargs.
    rewrite length_drop, length_fmap. unfold size in *. lia. }
  destruct ps' as [|p [|q ps']]; try discriminate Hlen'.
  exists p. split; [reflexivity | ].
  pose proof (counted_lookup [p] 0 p Hc' eq_refl) as Hp. simpl in Hp.
  split; [exact Hp | ].
  unfold I1. simpl. intros HI. apply Forall_cons_1 in HI as [HI _].
  rewrite Hp in HI. unfold size in HI. simpl in HI. lia.
Qed.

Lemma Subscribe_aligned (function : F) (params : A) d :
  aligned d -> size (subscribers d) < INT_MAX -> aligned (Subscribe function params d).
Proof.
  intros [Hc Hlen] Hn. unfold aligned, Subscribe, AttachParameters, push_subscriber, push_back.
  simpl. split.
  - apply counted_snoc. split; [exact Hc | ]. simpl.
    rewrite size_app. unfold size in *. simpl.
    rewrite to_size_t_small by (unfold SIZE_MAX, INT_MAX in *; lia). lia.
  - rewrite !length_app. simpl. lia.
Qed.

Lemma Subscribe_size (function : F) (params : A) d :
  size (subscribers (Subscribe function params d)) = size (subscribers d) + 1.
Proof. simpl. unfold push_back. rewrite size_app. reflexivity. Qed.

Lemma subscribe_pairs_aligned (es : list (F * A)) d :
  aligned d -> size (subscribers d) + size es <= INT_MAX ->
  aligned (subscribe_pairs es d) /\
  size (subscribers (subscribe_pairs es d)) = size (subscribers d) + size es.
Proof.
  revert d. induction es as [|e es IH]; intros d Ha Hn.
  - simpl. unfold size at 3. simpl. split; [exact Ha | lia].
  - rewrite size_cons in Hn. pose proof (size_nonneg es) as Hes. simpl.
    destruct (IH (Subscribe e.1 e.2 d)) as [Ha' Hn'].
    + apply Subscribe_aligned; [exact Ha | lia].
    + rewrite Subscribe_size. lia.
    + split; [exact Ha' | ]. fold (subscribe_pairs es (Subscribe e.1 e.2 d)).
      rewrite Hn', Subscribe_size, size_cons. lia.
Qed.

Lemma pre_increment_aligned d :
  aligned d -> size (subscribers d) < INT_MAX -> aligned (pre_increment d).
Proof.
  intros [Hc Hlen] Hn. unfold pre_increment.
  destruct d as [[|f subs] [|p ps]]; simpl in *; try discriminate Hlen;
    [split; [exact Hc | reflexivity] | ].
  unfold aligned, AttachParameters, push_back. simpl. split.
  - change (p :: ps ++ [?x]) with ((p :: ps) ++ [x]).
    apply counted_snoc. split; [exact Hc | ]. simpl.
    rewrite !size_cons in *. unfold size in *.
    rewrite to_size_t_small by (unfold SIZE_MAX, INT_MAX in *; lia). lia.
  - rewrite length_app. simpl. lia.
Qed.

Lemma post_increment_aligned d :
  aligned d -> size (subscribers d) < INT_MAX -> aligned (post_increment d).
Proof.
  intros Ha Hn. unfold post_increment.
  destruct (last (subscribers d)) as [newDel|] eqn:Hlast; [ | exact Ha].
  destruct (last (parameters d)) as [back|] eqn:Hback.
  - apply (Subscribe_aligned newDel (FunctionParams.parameters back) d Ha Hn).
  - apply last_None in Hback. apply last_Some in Hlast as [subs' Hsubs'].
    destruct Ha as [_ Hlen]. rewrite Hback, Hsubs', length_app in Hlen. simpl in Hlen. lia.
Qed.

Lemma pre_decrement_aligned d :
  aligned d -> size (subscribers d) <= INT_MAX ->
  exists d', pre_decrement d = Some d' /\ aligned d' /\
    size (subscribers d') <= size (subscribers d).
Proof.
  intros [Hc Hlen] Hn. destruct d as [subs ps]. simpl in *.
  induction ps as [|back ps _] using rev_ind.
  - destruct subs; [ | discriminate Hlen].
    exists (mkDelegateBase [] []). repeat split; try assumption; simpl; lia.
  - apply counted_snoc in Hc as [Hc Hback].
    rewrite length_app in Hlen. simpl in Hlen.
    rewrite decrement_last_snapshot by (unfold size, INT_MAX in *; lia).
    eexists. split; [reflexivity | ]. unfold aligned. simpl.
    assert (Hdel : length (delete (Z.to_nat (FunctionParams.index back)) subs) =
                   (length subs - 1)%nat).
    { apply length_delete, lookup_lt_is_Some. lia. }
    repeat split; try assumption; unfold size; lia.
Qed.

(** Every operation in range takes an aligned delegate to an aligned
    delegate; on those I1 holds. *)
Lemma run_operation_aligned (op : operation F A) d :
  aligned d -> size (subscribers d) <= INT_MAX -> operation_in_range op d ->
  exists d', run_operation op d = Some d' /\ aligned d' /\ I1 d' /\
    size (subscribers d') <= INT_MAX.
Proof.
  intros Ha Hn Hop.
  assert (Hgoal : exists d', run_operation op d = Some d' /\ aligned d' /\
                    size (subscribers d') <= INT_MAX).
  { destruct op as [c | count [|] | | | | | ]; simpl in *.
    - rewrite subscribe_call_pairs.
      destruct (subscribe_pairs_aligned (pairs_subscribed c) d Ha Hop) as [Ha' Hn'].
      eexists. split; [reflexivity | ]. split; [exact Ha' | lia].
    - destruct Hop as [Hcount Hpos].
      rewrite Remove_from_back_aligned by (assumption || lia).
      eexists. split; [reflexivity | ]. destruct Ha as [Hc Hlen].
      unfold aligned, size in *. simpl. rewrite !length_take.
      repeat split; [apply counted_take, Hc | lia | lia].
    - destruct (Remove_from_front_aligned count d Ha Hn Hop) as (ps' & -> & Hc' & Hargs).
      eexists. split; [reflexivity | ]. unfold aligned, size in *. simpl.
      destruct Ha as [_ Hlen].
      assert (Hlen' : length ps' = (length (parameters d) - Z.to_nat count)%nat).
      { rewrite <- (length_fmap FunctionParams.parameters ps'), Hargs.
        rewrite length_drop, length_fmap. reflexivity. }
      rewrite length_drop. repeat split; [exact Hc' | lia | lia].
    - eexists. split; [reflexivity | ]. split; [apply pre_increment_aligned; assumption | ].
      unfold pre_increment. destruct d as [[|f subs] [|p ps]]; simpl in *;
        rewrite ?size_cons in *; lia.
    - eexists. split; [reflexivity | ]. split; [apply post_increment_aligned; assumption | ].
      unfold post_increment.
      destruct (last (subscribers d)); [ | lia].
      destruct (last (parameters d)); simpl; unfold push_back; rewrite size_app;
        unfold size at 2; simpl; lia.
    - destruct (pre_decrement_aligned d Ha Hn) as (d' & Hd' & Ha' & Hn').
      exists d'. repeat split; [exact Hd' | apply Ha' | apply Ha' | lia].
    - destruct (pre_decrement_aligned d Ha Hn) as (d' & Hd' & Ha' & Hn').
      exists d'. repeat split; [exact Hd' | apply Ha' | apply Ha' | lia].
    - exists (mkDelegateBase [] []). repeat split. unfold size, INT_MAX. simpl. lia. }
  destruct Hgoal as (d' & Hd' & Ha' & Hn').
  exists d'. repeat split; [exact Hd' | apply Ha' | apply Ha' | apply aligned_I1, Ha' | exact Hn'].
Qed.

End AlignedFacts.

(** ** The store again: alignment and self-combination *)

Section CombineAligned.
Context {F A : Type}.
Implicit Types (h : gmap nat (DelegateBase F A)) (t o : DelegateBase F A).

(** [Combine] of two distinct aligned delegates leaves the receiver aligned. *)
Lemma Combine_aligned fuel (this other : nat) h t o :
  this <> other -> h !! this = Some t -> h !! other = Some o ->
  aligned t -> aligned o ->
  size (subscribers t) + size (subscribers o) <= INT_MAX ->
  (length (subscribers o) < fuel)%nat ->
  exists t', Combine fuel this other h = Done (<[this := t']> h) /\ aligned t' /\ I1 t'.
Proof.
  intros Hne Ht Ho Hat [Hco Hlen] Hn Hfuel.
  rewrite (Combine_distinct fuel this other h t o) by (assumption || lia).
  eexists. split; [reflexivity | ].
  destruct (subscribe_pairs_aligned
              (zip (subscribers o) (FunctionParams.parameters <$> parameters o)) t Hat)
    as [Ha' _].
  - unfold size in *. rewrite length_zip, length_fmap. lia.
  - split; [exact Ha' | apply aligned_I1, Ha'].
Qed.

(** With the receiver as its own argument, and a pack and a callable to
    start from, the loop of [Combine] outruns any fuel: the bound it is
    compared with grows at every iteration. *)
Lemma Combine_loop_self fuel (this : nat) (i : nat) h t :
  h !! this = Some t ->
  (i < length (subscribers t))%nat -> (i < length (parameters t))%nat ->
  Combine_loop fuel this this (Z.of_nat i) h = OutOfFuel.
Proof.
  revert i h t. induction fuel as [|fuel IH]; intros i h t Ht Hs Hp; [reflexivity | ].
  simpl. rewrite Ht. unfold size. rewrite bool_decide_eq_true_2 by lia.
  destruct (lookup_lt_is_Some_2 (subscribers t) i Hs) as [f Hf].
  destruct (lookup_lt_is_Some_2 (parameters t) i Hp) as [p Hpi].
  rewrite at_lookup, Hf. rewrite lookup_insert_eq. simpl.
  rewrite at_lookup, Hpi.
  replace (Z.of_nat i + 1) with (Z.of_nat (Datatypes.S i)) by lia.
  eapply IH.
  - apply lookup_insert_eq.
  - simpl. unfold push_back. rewrite length_app. simpl. lia.
  - simpl. unfold push_back. rewrite length_app. simpl. lia.
Qed.

Lemma Combine_self_outruns_fuel fuel (this : nat) h t :
  h !! this = Some t -> subscribers t <> [] -> parameters t <> [] ->
  Combine fuel this this h = OutOfFuel.
Proof.
  intros Ht Hs Hp. unfold Combine. change 0 with (Z.of_nat 0).
  apply (Combine_loop_self fuel this 0 h t Ht).
  - destruct (subscribers t); [congruence | simpl; lia].
  - destruct (parameters t); [congruence | simpl; lia].
Qed.

End CombineAligned.

(** ** The unclamped erasure of the removal from the front *)

(** C4 (the code at the failing input): on a delegate with one callable
    [Remove(1, false)] clamps [adjustedCount] to 0 and detaches no pack,
    but erases [count] callables: none is left, where the removal from the
    back leaves the one there is; a larger [count] erases past the end. *)
Theorem Remove_from_front_erases_unclamped_count :
  let d := Subscribe lambda1 7 empty_delegate in
  d = mkDelegateBase [lambda1] [FunctionParams.make 0 7] /\
  Remove 1 false d = Some (mkDelegateBase [] [FunctionParams.make 0 7]) /\
  Remove 1 true d = Some d /\
  Remove 2 false d = None.
Proof. repeat split. Qed.

(** C1 (the code at the failing input): [Subscribe(lambda1, 7)] followed
    by [Remove(1, false)] leaves a pack with index 0 and no callable, so
    I1 fails in a state reached from the empty delegate. *)
Theorem I1_broken_by_removal_from_front :
  run_operations [OpSubscribe (Single lambda1 7)] empty_delegate =
    Some (mkDelegateBase [lambda1] [FunctionParams.make 0 7]) /\
  I1 (mkDelegateBase [lambda1] [FunctionParams.make 0 7]) /\
  run_operations [OpSubscribe (Single lambda1 7); OpRemove 1 false] empty_delegate =
    Some (mkDelegateBase [] [FunctionParams.make 0 7]) /\
  ~ I1 (mkDelegateBase (@nil lambda) [FunctionParams.make 0 7]).
Proof.
  split; [reflexivity | ]. split; [ | split; [reflexivity | ]].
  - apply Forall_cons. split; [by_evaluation | constructor].
  - intros HI. apply Forall_cons_1 in HI as [[_ HI] _]. vm_compute in HI. discriminate HI.
Qed.

(** ** Replay of the saved packs *)

Section ReplayFacts.
Context {F A R W : Type} `{Additive R}.
Variable call : F -> A -> W -> R * W.
Implicit Types (d : DelegateBase F A) (w : W) (ps : list (FunctionParams A)).

Lemma Invoke_loop_plan d ps w :
  Forall (fun p => 0 <= FunctionParams.index p <= INT_MAX) ps ->
  Invoke_loop call d ps w =
    plan ← replay_plan (subscribers d) ps; Some (dispatch_each call plan w).2.
Proof.
  intros Hps. revert w. induction Hps as [|p ps Hp Hps IH]; intros w; simpl.
  - reflexivity.
  - unfold HelperInvoke.
    rewrite to_int_small by (unfold in_int, INT_MIN, INT_MAX in *; lia).
    rewrite to_size_t_small by (unfold SIZE_MAX, INT_MAX in *; lia).
    destruct (at_ (subscribers d) (FunctionParams.index p)) as [f|]; simpl; [ | reflexivity].
    rewrite IH. destruct (replay_plan (subscribers d) ps); reflexivity.
Qed.

(** [Delegate::Invoke()] makes the dispatches of the plan, in order. *)
Lemma Invoke_replays_plan d w :
  Forall (fun p => 0 <= FunctionParams.index p <= INT_MAX) (parameters d) ->
  Invoke call d w =
    plan ← replay_plan (subscribers d) (parameters d); Some (dispatch_each call plan w).2.
Proof. apply Invoke_loop_plan. Qed.

Lemma RetDelegate_Invoke_loop_plan d (i : nat) ps (result : R) w :
  (forall (j : nat) p, ps !! j = Some p -> FunctionParams.index p = Z.of_nat (i + j)) ->
  Z.of_nat (i + length ps) <= INT_MAX ->
  RetDelegate_Invoke_loop call d (Z.of_nat i) ps result w =
    plan ← replay_plan (subscribers d) ps;
    Some (foldl plus_assign result (dispatch_each call plan w).1,
          (dispatch_each call plan w).2).
Proof.
  revert i result w. induction ps as [|p ps IH]; intros i result w Hidx Hmax; simpl.
  - reflexivity.
  - unfold HelperInvoke. simpl in Hmax.
    rewrite to_int_small by (unfold in_int, INT_MIN, INT_MAX in *; lia).
    rewrite to_size_t_small by (unfold SIZE_MAX, INT_MAX in *; lia).
    rewrite (Hidx 0%nat p eq_refl), Nat.add_0_r.
    destruct (at_ (subscribers d) (Z.of_nat i)) as [f|]; simpl; [ | reflexivity].
    replace (Z.of_nat i + 1) with (Z.of_nat (Datatypes.S i)) by lia.
    rewrite IH.
    + destruct (replay_plan (subscribers d) ps); reflexivity.
    + intros j q Hq. rewrite (Hidx (Datatypes.S j) q Hq). f_equal. lia.
    + lia.
Qed.

(** Where the [i]-th pack carries index [i], [RetDelegate::Invoke()],
    which passes [i], makes the dispatches of the plan and sums their
    results. *)
Lemma RetDelegate_Invoke_counted d w :
  counted (parameters d) -> size (parameters d) <= INT_MAX ->
  RetDelegate_Invoke call d w =
    plan ← replay_plan (subscribers d) (parameters d);
    Some (sum_results (dispatch_each call plan w).1, (dispatch_each call plan w).2).
Proof.
  intros Hc Hmax. unfold RetDelegate_Invoke. change 0 with (Z.of_nat 0).
  apply RetDelegate_Invoke_loop_plan.
  - intros j p Hp. simpl. apply (counted_lookup (parameters d) j p Hc Hp).
  - simpl. exact Hmax.
Qed.

End ReplayFacts.

(** C3 (the code at the failing input): after the README's
    [del += {lambda1, lambda2, lambda3}] and
    [del.Subscribe(lambda1, {10, 13, 15})] the snapshots have indices 3,
    4 and 5.  [Delegate::Invoke()] passes those and calls [lambda1] three
    times, as the README shows; [RetDelegate::Invoke()] passes the loop
    counter and calls [lambda1], [lambda2] and [lambda3].  Likewise after
    [del += lambda1] and [del.Subscribe(lambda2, 5)]. *)
Theorem RetDelegate_Invoke_dispatches_by_position :
  let d := Subscribe_packs lambda1 [10; 13; 15]
             (add_assign_functions [lambda1; lambda2; lambda3] empty_delegate) in
  let d' := Subscribe lambda2 5 (add_assign lambda1 empty_delegate) in
  FunctionParams.index <$> parameters d = [3; 4; 5] /\
  replay_plan (subscribers d) (parameters d) =
    Some [(lambda1, 10); (lambda1, 13); (lambda1, 15)] /\
  Invoke logged d [] = Some [(lambda1, 10); (lambda1, 13); (lambda1, 15)] /\
  RetDelegate_Invoke traced d [] =
    Some (38, [(lambda1, 10); (lambda2, 13); (lambda3, 15)]) /\
  parameters d' = [FunctionParams.make 1 5] /\
  Invoke logged d' [] = Some [(lambda2, 5)] /\
  RetDelegate_Invoke traced d' [] = Some (5, [(lambda1, 5)]).
Proof. repeat split. Qed.

(** * Further properties of the code *)

(** ** Removal by count *)

Section RemoveProperties.
Context {F A : Type}.
Implicit Types (d : DelegateBase F A).

(** X1: on an aligned delegate with at least one subscriber,
    [Remove(count, true)] with [count >= 0] keeps the first
    [size - min(count, size - 1)] subscribers and their packs, and the
    delegate stays aligned, so that I1 holds. *)
Theorem Remove_from_back_keeps_prefix (count : Z) d :
  aligned d -> 1 <= size (subscribers d) <= INT_MAX -> 0 <= count <= INT_MAX ->
  let left := Z.to_nat (size (subscribers d) - Z.min count (size (subscribers d) - 1)) in
  exists d', Remove count true d = Some d' /\
    subscribers d' = take left (subscribers d) /\
    parameters d' = take left (parameters d) /\
    aligned d' /\ I1 d'.
Proof.
  intros Ha Hn Hcount left.
  rewrite Remove_from_back_aligned by assumption. fold left.
  eexists. split; [reflexivity | ]. simpl.
  assert (Ha' : aligned (mkDelegateBase (take left (subscribers d)) (take left (parameters d)))).
  { destruct Ha as [Hc Hlen]. split; simpl.
    - apply counted_take, Hc.
    - rewrite !length_take. lia. }
  repeat split; [apply Ha' | apply Ha' | apply aligned_I1, Ha'].
Qed.

(** X2: on an aligned delegate [Remove(count, false)] with
    [0 <= count < size] drops the first [count] subscribers and packs and
    counts the indices of the packs left anew: the delegate stays aligned
    and I1 holds. *)
Theorem Remove_from_front_drops_prefix (count : Z) d :
  aligned d -> size (subscribers d) <= INT_MAX -> 0 <= count < size (subscribers d) ->
  exists d', Remove count false d = Some d' /\
    subscribers d' = drop (Z.to_nat count) (subscribers d) /\
    FunctionParams.parameters <$> parameters d' =
      drop (Z.to_nat count) (FunctionParams.parameters <$> parameters d) /\
    aligned d' /\ I1 d'.
Proof.
  intros Ha Hn Hcount.
  destruct (Remove_from_front_aligned count d Ha Hn Hcount) as (ps' & -> & Hc' & Hargs).
  eexists. split; [reflexivity | ]. simpl.
  assert (Ha' : aligned (mkDelegateBase (drop (Z.to_nat count) (subscribers d)) ps')).
  { split; simpl; [exact Hc' | ].
    rewrite <- (length_fmap FunctionParams.parameters ps'), Hargs.
    rewrite !length_drop, length_fmap. destruct Ha as [_ ->]. reflexivity. }
  repeat split; [exact Hargs | apply Ha' | apply Ha' | apply aligned_I1, Ha'].
Qed.

(** X3: on an aligned delegate with [n >= 1] subscribers
    [Remove(n, false)] erases every subscriber and leaves one pack, of
    index 0, that no subscriber answers: I1 fails in the state reached. *)
Theorem Remove_all_from_front_leaves_a_pack d :
  aligned d -> 1 <= size (subscribers d) <= INT_MAX ->
  exists p, Remove (size (subscribers d)) false d = Some (mkDelegateBase [] [p]) /\
    FunctionParams.index p = 0 /\
    last (parameters d) = Some (FunctionParams.make (size (subscribers d) - 1)
                                  (FunctionParams.parameters p)) /\
    ~ I1 (mkDelegateBase (@nil F) [p]).
Proof.
  intros Ha Hn.
  destruct (Remove_from_front_whole d Ha Hn) as (p & Hp & Hidx & HI).
  exists p. repeat split; try assumption.
  (* the pack left is the last one subscribed *)
  destruct Ha as [Hc Hlen]. unfold Remove in Hp.
  destruct d as [subs ps]. simpl in *.
  induction ps as [|q ps _] using rev_ind.
  { unfold size in Hn. simpl in Hlen. rewrite <- Hlen in Hn. simpl in Hn. lia. }
  rewrite last_snoc. f_equal.
  apply counted_snoc in Hc as [Hc Hq].
  rewrite length_app in Hlen. simpl in Hlen.
  assert (Hadj : to_size_t (to_int (if bool_decide (to_size_t (size subs) < size subs)
                                    then to_size_t (size subs)
                                    else to_size_t (size subs - 1))) = size subs - 1).
  { unfold INT_MAX in *.
    rewrite (to_size_t_small (size subs)) by (unfold SIZE_MAX; lia).
    rewrite bool_decide_eq_false_2 by lia.
    rewrite (to_size_t_small (size subs - 1)) by (unfold SIZE_MAX; lia).
    rewrite to_int_small by (unfold in_int, INT_MIN, INT_MAX; lia).
    apply to_size_t_small. unfold SIZE_MAX. lia. }
  rewrite Hadj in Hp. simpl negb in Hp. cbv iota in Hp.
  destruct (detach_front_loop (size subs - 1) subs (ps ++ [q])) as (ps' & Hloop & _ & Hargs).
  { apply counted_snoc. split; assumption. }
  { unfold size in *. rewrite length_app. simpl. lia. }
  { unfold size in *. rewrite length_app. simpl. lia. }
  rewrite Hloop in Hp. simpl in Hp.
  destruct (erase_prefix subs (size subs)) as [subs'|]; [ | discriminate Hp].
  simpl in Hp. injection Hp as _ ->.
  rewrite fmap_app, drop_app_length' in Hargs
    by (rewrite length_fmap; unfold size; lia).
  simpl in Hargs. injection Hargs as Hargs.
  destruct q as [qi qa], p as [pi pa]. simpl in *. subst. f_equal. unfold size. lia.
Qed.

(** X4: [Remove(count, false)] with a negative [count], or with a
    [count] above the number of subscribers, forms an iterator outside
    the vector: the call is undefined, whatever the packs. *)
Theorem Remove_from_front_out_of_range (count : Z) d :
  size (parameters d) <= INT_MAX ->
  count < 0 \/ size (subscribers d) < count ->
  Remove count false d = None.
Proof.
  intros Hmax Hcount. unfold Remove. simpl negb. cbv iota.
  match goal with
  | |- context [for_loop ?n (DetachParameters 0) d] =>
      destruct (detach_loop_defined n (DetachParameters 0) d) as (d1 & Hd1 & Hs1 & _)
  end.
  { intros x Hx. apply DetachParameters_defined, Hx. }
  { exact Hmax. }
  rewrite Hd1. simpl. rewrite Hs1. unfold erase_prefix.
  rewrite bool_decide_eq_false_2 by lia. reflexivity.
Qed.

(** X5: from an aligned delegate, a sequence of operations that each stay
    in range (a removal below the clamp, a subscription or duplication
    below [INT_MAX] callables) is defined, and reaches an aligned
    delegate, on which I1 holds. *)
Theorem operations_in_range_keep_I1 (ops : list (operation F A)) d :
  aligned d -> size (subscribers d) <= INT_MAX -> operations_in_range ops d ->
  exists d', run_operations ops d = Some d' /\ aligned d' /\ I1 d' /\
    size (subscribers d') <= INT_MAX.
Proof.
  revert d. induction ops as [|op ops IH]; intros d Ha Hn Hops.
  - exists d. repeat split; [apply Ha | apply Ha | apply aligned_I1, Ha | exact Hn].
  - destruct Hops as [Hop Hops].
    destruct (run_operation_aligned op d Ha Hn Hop) as (d1 & Hd1 & Ha1 & _ & Hn1).
    destruct (IH d1 Ha1 Hn1 (Hops d1 Hd1)) as (d' & Hd' & Hrest).
    exists d'. split; [ | exact Hrest].
    unfold run_operations in *. simpl. rewrite Hd1. exact Hd'.
Qed.

End RemoveProperties.

(** [Remove(1)] on the README's delegate. *)
Lemma Remove_from_back_keeps_prefix_witness :
  aligned readme_delegate /\
  exists d', Remove 1 true readme_delegate = Some d' /\
    subscribers d' = [lambda1; lambda1; lambda1; lambda2] /\ I1 d'.
Proof.
  assert (Ha : aligned readme_delegate) by by_evaluation.
  assert (Hn : 1 <= size (subscribers readme_delegate) <= INT_MAX) by by_evaluation.
  assert (Hcount : 0 <= 1 <= INT_MAX) by by_evaluation.
  destruct (Remove_from_back_keeps_prefix 1 readme_delegate Ha Hn Hcount)
    as (d' & Hd' & Hs & _ & _ & HI).
  split; [exact Ha | ]. exists d'. repeat split; [exact Hd' | exact Hs | exact HI].
Defined.

(** [Remove(2, false)] on the README's delegate. *)
Lemma Remove_from_front_drops_prefix_witness :
  aligned readme_delegate /\
  exists d', Remove 2 false readme_delegate = Some d' /\
    subscribers d' = [lambda1; lambda2; lambda2] /\
    FunctionParams.parameters <$> parameters d' = [8; -5; -7] /\ I1 d'.
Proof.
  assert (Ha : aligned readme_delegate) by by_evaluation.
  assert (Hn : size (subscribers readme_delegate) <= INT_MAX) by by_evaluation.
  assert (Hcount : 0 <= 2 < size (subscribers readme_delegate)) by by_evaluation.
  destruct (Remove_from_front_drops_prefix 2 readme_delegate Ha Hn Hcount)
    as (d' & Hd' & Hs & Hargs & _ & HI).
  split; [exact Ha | ]. exists d'.
  repeat split; [exact Hd' | exact Hs | exact Hargs | exact HI].
Defined.

(** [Remove(5, false)] on the README's delegate of five callables. *)
Lemma Remove_all_from_front_leaves_a_pack_witness :
  aligned readme_delegate /\
  exists p, Remove 5 false readme_delegate = Some (mkDelegateBase [] [p]) /\
    p = FunctionParams.make 0 (-7).
Proof.
  assert (Ha : aligned readme_delegate) by by_evaluation.
  assert (Hn : 1 <= size (subscribers readme_delegate) <= INT_MAX) by by_evaluation.
  destruct (Remove_all_from_front_leaves_a_pack readme_delegate Ha Hn)
    as (p & Hp & Hidx & Hlast & _).
  split; [exact Ha | ]. exists p. split; [exact Hp | ].
  destruct p as [pi pa]. simpl in Hidx. subst pi.
  vm_compute in Hlast. injection Hlast as <-. reflexivity.
Defined.

(** [Remove(-1, false)] and [Remove(6, false)] on the README's delegate. *)
Lemma Remove_from_front_out_of_range_witness :
  size (parameters readme_delegate) <= INT_MAX /\
  Remove (-1) false readme_delegate = None /\
  Remove 6 false readme_delegate = None.
Proof.
  assert (Hmax : size (parameters readme_delegate) <= INT_MAX) by by_evaluation.
  split; [exact Hmax | ]. split.
  - apply (Remove_from_front_out_of_range (-1) readme_delegate Hmax).
    left. reflexivity.
  - apply (Remove_from_front_out_of_range 6 readme_delegate Hmax).
    right. reflexivity.
Defined.

(** The README's removals, followed by a duplication and a decrement. *)
Lemma operations_in_range_keep_I1_witness :
  let ops := [OpSubscribe (Packs lambda1 [4; 6; 8]); OpSubscribe (Packs lambda2 [-5; -7]);
              OpRemove 1 true; OpRemove 2 false; OpDuplicateLast; OpRemoveFirst] in
  operations_in_range ops empty_delegate /\
  exists d', run_operations ops empty_delegate = Some d' /\ I1 d' /\
    subscribers d' = [lambda1; lambda2].
Proof.
  intros ops.
  assert (Ha : aligned (@empty_delegate lambda Z)) by by_evaluation.
  assert (Hn : size (subscribers (@empty_delegate lambda Z)) <= INT_MAX) by by_evaluation.
  assert (Hops : operations_in_range ops empty_delegate).
  { unfold ops. repeat step_in_range. exact I. }
  destruct (operations_in_range_keep_I1 ops empty_delegate Ha Hn Hops)
    as (d' & Hd' & _ & HI & _).
  split; [exact Hops | ]. exists d'. repeat split; [exact Hd' | exact HI | ].
  vm_compute in Hd'. injection Hd' as <-. reflexivity.
Defined.

(** ** Replay on aligned delegates *)

Section ReplayProperties.
Context {F A R W : Type} `{Additive R}.
Variable call : F -> A -> W -> R * W.
Implicit Types (d : DelegateBase F A) (w : W) (ps : list (FunctionParams A)).

Lemma at_is_Some {T} (v : list T) (i : Z) : is_Some (at_ v i) <-> 0 <= i < size v.
Proof.
  unfold at_. case_bool_decide as Hi.
  - split; [intros _; exact Hi | intros _].
    apply lookup_lt_is_Some. unfold size in Hi. lia.
  - split; [intros Hs; destruct (is_Some_None Hs) | intros Hc; destruct (Hi Hc)].
Qed.

Lemma replay_plan_is_Some (subs : list F) ps :
  is_Some (replay_plan subs ps) <->
  Forall (fun p => 0 <= FunctionParams.index p < size subs) ps.
Proof.
  induction ps as [|p ps IH]; simpl.
  - split; [intros _; constructor | intros _; eexists; reflexivity].
  - rewrite Forall_cons, <- IH, <- at_is_Some.
    destruct (at_ subs (FunctionParams.index p)) as [f|]; simpl.
    + destruct (replay_plan subs ps) as [plan|]; simpl.
      * split; [intros _; split; eexists; reflexivity | intros _; eexists; reflexivity].
      * split; [intros Hs; destruct (is_Some_None Hs) | intros [_ Hs]; destruct (is_Some_None Hs)].
    + split; [intros Hs; destruct (is_Some_None Hs) | intros [Hs _]; destruct (is_Some_None Hs)].
Qed.

(** The plan of packs that carry the indices [k], [k + 1], ... pairs them
    with the subscribers from position [k] on. *)
Lemma replay_plan_from (subs : list F) ps (k : nat) :
  (forall (j : nat) p, ps !! j = Some p -> FunctionParams.index p = Z.of_nat (k + j)) ->
  (k + length ps <= length subs)%nat ->
  replay_plan subs ps = Some (zip (drop k subs) (FunctionParams.parameters <$> ps)).
Proof.
  revert k. induction ps as [|p ps IH]; intros k Hidx Hlen; simpl.
  - destruct (drop k subs); reflexivity.
  - simpl in Hlen. rewrite (Hidx 0%nat p eq_refl), Nat.add_0_r, at_lookup.
    destruct (lookup_lt_is_Some_2 subs k ltac:(lia)) as [f Hf].
    rewrite Hf. simpl. rewrite (IH (Datatypes.S k)).
    + simpl. rewrite (drop_S subs f k Hf). reflexivity.
    + intros j q Hq. rewrite (Hidx (Datatypes.S j) q Hq). f_equal. lia.
    + lia.
Qed.

Lemma replay_plan_aligned d :
  aligned d ->
  replay_plan (subscribers d) (parameters d) =
    Some (zip (subscribers d) (FunctionParams.parameters <$> parameters d)).
Proof.
  intros [Hc Hlen]. rewrite (replay_plan_from (subscribers d) (parameters d) 0).
  - reflexivity.
  - intros j p Hp. apply (counted_lookup _ j p Hc Hp).
  - simpl. lia.
Qed.

Lemma aligned_indices_in_int d :
  aligned d -> size (subscribers d) <= INT_MAX ->
  Forall (fun p => 0 <= FunctionParams.index p <= INT_MAX) (parameters d).
Proof.
  intros Ha Hn. eapply Forall_impl; [apply aligned_I1, Ha | ].
  simpl. intros p Hp. lia.
Qed.

Lemma Invoke_aligned d w :
  aligned d -> size (subscribers d) <= INT_MAX ->
  Invoke call d w =
    Some (dispatch_each call
            (zip (subscribers d) (FunctionParams.parameters <$> parameters d)) w).2.
Proof.
  intros Ha Hn. rewrite Invoke_replays_plan by (apply aligned_indices_in_int; assumption).
  rewrite replay_plan_aligned by exact Ha. reflexivity.
Qed.

Lemma dispatch_each_app (plan1 plan2 : list (F * A)) w :
  dispatch_each call (plan1 ++ plan2) w =
    ((dispatch_each call plan1 w).1 ++
       (dispatch_each call plan2 (dispatch_each call plan1 w).2).1,
     (dispatch_each call plan2 (dispatch_each call plan1 w).2).2).
Proof.
  revert w. induction plan1 as [|[f x] plan1 IH]; intros w; simpl.
  - destruct (dispatch_each call plan2 w); reflexivity.
  - rewrite IH. reflexivity.
Qed.

(** X6: [Delegate::Invoke()] is defined exactly when I1 holds (for
    indices within [int]), and then makes the dispatches of the plan:
    for each pack in order, the subscriber at the pack's index with the
    pack. *)
Theorem Invoke_defined_iff_I1 d w :
  Forall (fun p => 0 <= FunctionParams.index p <= INT_MAX) (parameters d) ->
  (is_Some (Invoke call d w) <-> I1 d) /\
  (I1 d -> exists plan, replay_plan (subscribers d) (parameters d) = Some plan /\
             length plan = length (parameters d) /\
             Invoke call d w = Some (dispatch_each call plan w).2).
Proof.
  intros Hint. rewrite Invoke_replays_plan by exact Hint.
  unfold I1. rewrite <- replay_plan_is_Some. split.
  - destruct (replay_plan (subscribers d) (parameters d)); simpl.
    + split; intros _; eexists; reflexivity.
    + split; intros Hs; destruct (is_Some_None Hs).
  - intros [plan Hplan]. exists plan. rewrite Hplan. repeat split.
    clear Hint. revert plan Hplan. induction (parameters d) as [|p ps IH]; intros plan Hplan.
    + injection Hplan as <-. reflexivity.
    + simpl in Hplan. destruct (at_ (subscribers d) (FunctionParams.index p)); [ | discriminate].
      simpl in Hplan. destruct (replay_plan (subscribers d) ps) as [rest|]; [ | discriminate].
      injection Hplan as <-. simpl. f_equal. apply IH. reflexivity.
Qed.

(** X7: on an aligned delegate [RetDelegate::Invoke()] calls the [i]-th
    subscriber with the [i]-th pack, in order, and returns the sum of the
    results under [+=] from a value-initialised [ReturnType]; it leaves
    the world that [Delegate::Invoke()] leaves. *)
Theorem RetDelegate_Invoke_sums_replay d w :
  aligned d -> size (subscribers d) <= INT_MAX ->
  let plan := zip (subscribers d) (FunctionParams.parameters <$> parameters d) in
  RetDelegate_Invoke call d w =
    Some (sum_results (dispatch_each call plan w).1, (dispatch_each call plan w).2) /\
  Invoke call d w = Some (dispatch_each call plan w).2.
Proof.
  intros Ha Hn plan. split; [ | apply Invoke_aligned; assumption].
  rewrite RetDelegate_Invoke_counted.
  - rewrite replay_plan_aligned by exact Ha. reflexivity.
  - apply Ha.
  - destruct Ha as [_ Hlen]. unfold size in *. lia.
Qed.

(** X8: after any sequence of [Subscribe] calls on the empty delegate,
    [Invoke()] calls exactly the (callable, argument tuple) pairs that
    were subscribed, in the order of subscription. *)
Theorem Invoke_after_Subscribe (cs : list (subscription F A)) w :
  size (concat (map pairs_subscribed cs)) <= INT_MAX ->
  Invoke call (subscribe_calls cs empty_delegate) w =
    Some (dispatch_each call (concat (map pairs_subscribed cs)) w).2.
Proof.
  intros Hn. set (es := concat (map pairs_subscribed cs)) in *.
  rewrite subscribe_calls_pairs. fold es.
  destruct (subscribe_pairs_aligned es (@empty_delegate F A)) as [Ha Hsize].
  { split; reflexivity. }
  { simpl. exact Hn. }
  rewrite Invoke_aligned by (try exact Ha; rewrite Hsize; simpl; exact Hn).
  destruct (subscribe_pairs_spec es (@empty_delegate F A)) as [Hs Hp].
  rewrite Hs, Hp. simpl. rewrite snapshots_from_parameters, zip_fst_snd. reflexivity.
Qed.

End ReplayProperties.

(** [del += lambda1; del.Subscribe(lambda2, 5)], and a delegate whose
    only pack has index 1 with one subscriber. *)
Lemma Invoke_defined_iff_I1_witness :
  let good := Subscribe lambda2 5 (add_assign lambda1 empty_delegate) in
  let bad := mkDelegateBase [lambda1] [FunctionParams.make 1 5] in
  is_Some (Invoke logged good []) /\ I1 good /\
  Invoke logged bad [] = None /\ ~ I1 bad.
Proof.
  intros good bad.
  assert (Hgood : Forall (fun p => 0 <= FunctionParams.index p <= INT_MAX) (parameters good)).
  { repeat constructor; by_evaluation. }
  assert (Hbad : Forall (fun p => 0 <= FunctionParams.index p <= INT_MAX) (parameters bad)).
  { repeat constructor; by_evaluation. }
  destruct (Invoke_defined_iff_I1 logged good [] Hgood) as [Hiff _].
  destruct (Invoke_defined_iff_I1 logged bad [] Hbad) as [Hiff' _].
  assert (Hsome : is_Some (Invoke logged good [])) by (eexists; reflexivity).
  repeat split; [exact Hsome | apply Hiff, Hsome | ].
  intros HI. apply Hiff' in HI. destruct HI as [w Hw]. discriminate Hw.
Defined.

(** [RetDelegate::Invoke()] on the README's delegate. *)
Lemma RetDelegate_Invoke_sums_replay_witness :
  aligned readme_delegate /\
  RetDelegate_Invoke traced readme_delegate [] =
    Some (6, [(lambda1, 4); (lambda1, 6); (lambda1, 8); (lambda2, -5); (lambda2, -7)]).
Proof.
  assert (Ha : aligned readme_delegate) by by_evaluation.
  assert (Hn : size (subscribers readme_delegate) <= INT_MAX) by by_evaluation.
  destruct (RetDelegate_Invoke_sums_replay traced readme_delegate [] Ha Hn) as [Hret _].
  split; [exact Ha | ]. rewrite Hret. reflexivity.
Defined.

(** The README's three kinds of [Subscribe], then [Invoke()]. *)
Lemma Invoke_after_Subscribe_witness :
  let cs := [Packs lambda1 [10; 13; 15]; Functions [lambda1; lambda2; lambda3] 21;
             Single lambda2 0] in
  size (concat (map pairs_subscribed cs)) <= INT_MAX /\
  Invoke logged (subscribe_calls cs empty_delegate) [] =
    Some [(lambda1, 10); (lambda1, 13); (lambda1, 15);
          (lambda1, 21); (lambda2, 21); (lambda3, 21); (lambda2, 0)].
Proof.
  intros cs.
  assert (Hn : size (concat (map pairs_subscribed cs)) <= INT_MAX) by by_evaluation.
  split; [exact Hn | ].
  rewrite (Invoke_after_Subscribe logged cs [] Hn). reflexivity.
Defined.

(** ** Combination and transfer on aligned delegates *)

Section CombineProperties.
Context {F A R W : Type}.
Variable call : F -> A -> W -> R * W.
Implicit Types (h : gmap nat (DelegateBase F A)) (t o : DelegateBase F A) (w : W).

(** X9: [a.Combine(b)] of two distinct aligned delegates leaves [a]
    aligned, with I1, and composes invocation: replaying the combined
    delegate is replaying [a] and then [b], and calling it with fresh
    arguments is calling [a] and then [b]. *)
Theorem Combine_composes_invocation fuel (this other : nat) h t o (x : A) w :
  this <> other -> h !! this = Some t -> h !! other = Some o ->
  aligned t -> aligned o ->
  size (subscribers t) + size (subscribers o) <= INT_MAX ->
  (length (subscribers o) < fuel)%nat ->
  exists t', Combine fuel this other h = Done (<[this := t']> h) /\
    aligned t' /\ I1 t' /\
    Invoke call t' w = (w1 ← Invoke call t w; Invoke call o w1) /\
    Delegate_call call t' x w = Delegate_call call o x (Delegate_call call t x w).
Proof.
  intros Hne Ht Ho Hat Hao Hn Hfuel.
  pose proof (size_nonneg (subscribers t)) as Hnt.
  pose proof (size_nonneg (subscribers o)) as Hno.
  set (es := zip (subscribers o) (FunctionParams.parameters <$> parameters o)).
  assert (Hes1 : es.*1 = subscribers o).
  { apply fst_zip. rewrite length_fmap. destruct Hao as [_ ->]. reflexivity. }
  assert (Hes2 : es.*2 = FunctionParams.parameters <$> parameters o).
  { apply snd_zip. rewrite length_fmap. destruct Hao as [_ ->]. reflexivity. }
  assert (Hsize : size es = size (subscribers o)).
  { unfold size. rewrite <- Hes1, length_fmap. reflexivity. }
  destruct (subscribe_pairs_aligned es t Hat) as [Ha' Hn']; [lia | ].
  destruct (subscribe_pairs_spec es t) as [Hs Hp].
  exists (subscribe_pairs es t). split.
  { apply Combine_distinct; try assumption. destruct Hao as [_ ->]. reflexivity. }
  split; [exact Ha' | ]. split; [apply aligned_I1, Ha' | ]. split.
  - rewrite (Invoke_aligned call (subscribe_pairs es t)) by (try exact Ha'; lia).
    rewrite (Invoke_aligned call t) by (try exact Hat; lia). simpl.
    rewrite (Invoke_aligned call o) by (try exact Hao; lia).
    rewrite Hs, Hp, Hes1, fmap_app, snapshots_from_parameters, Hes2.
    rewrite (zip_with_app pair)
      by (rewrite length_fmap; destruct Hat as [_ ->]; reflexivity).
    rewrite dispatch_each_app. reflexivity.
  - unfold Delegate_call. rewrite Hs, Hes1, foldl_app. reflexivity.
Qed.

(** X10: [a.Combine(a)] re-reads the size of the vector it appends to:
    without subscribers it does nothing, with a subscriber but no pack it
    reads [parameters[0]] out of range, and with both it never leaves
    the loop. *)
Theorem Combine_with_itself (this : nat) h t (fuel : nat) :
  h !! this = Some t ->
  (subscribers t = [] -> Combine (Datatypes.S fuel) this this h = Done h) /\
  (subscribers t <> [] -> parameters t = [] ->
     Combine (Datatypes.S fuel) this this h = Undefined) /\
  (subscribers t <> [] -> parameters t <> [] -> Combine fuel this this h = OutOfFuel).
Proof.
  intros Ht. repeat split.
  - intros Hs. unfold Combine. simpl. rewrite Ht, Hs. reflexivity.
  - intros Hs Hp. unfold Combine. simpl. rewrite Ht.
    destruct (subscribers t) as [|f subs] eqn:Hsubs; [congruence | ].
    rewrite bool_decide_eq_true_2 by (rewrite size_cons; pose proof (size_nonneg subs); lia).
    change 0 with (Z.of_nat 0). rewrite at_lookup. simpl.
    rewrite lookup_insert_eq. simpl. rewrite Hp. reflexivity.
  - intros Hs Hp. apply (Combine_self_outruns_fuel fuel this h t Ht Hs Hp).
Qed.

End CombineProperties.

Section TransferProperties.
Context {F A : Type}.
Implicit Types (h : gmap nat (DelegateBase F A)).

(** X11: [a >> b], with [a] and [b] distinct and [a] holding a pack for
    each of its subscribers, appends the callables and packs of [a] to
    [b] and clears [a]; [a >> a] changes nothing. *)
Theorem shift_right_moves_into_rhs h (a b : nat) (da db : DelegateBase F A) (fuel : nat) :
  a <> b -> h !! a = Some da -> h !! b = Some db ->
  (length (subscribers da) <= length (parameters da))%nat ->
  (length (subscribers da) < fuel)%nat ->
  exists db', shift_right fuel a b h = Done (<[a := empty_delegate]> (<[b := db']> h)) /\
    subscribers db' = subscribers db ++ subscribers da /\
    FunctionParams.parameters <$> parameters db' =
      (FunctionParams.parameters <$> parameters db) ++
      take (length (subscribers da)) (FunctionParams.parameters <$> parameters da) /\
    shift_right fuel a a h = Done h.
Proof.
  intros Hne Ha Hb Hlen Hfuel.
  set (es := zip (subscribers da) (FunctionParams.parameters <$> parameters da)).
  assert (Hes1 : es.*1 = subscribers da).
  { apply fst_zip. rewrite length_fmap. exact Hlen. }
  destruct (subscribe_pairs_spec es db) as [Hs Hp].
  exists (subscribe_pairs es db). repeat split.
  - unfold shift_right, transfer.
    rewrite bool_decide_eq_true_2 by (intros Hc; apply Hne; symmetry; exact Hc).
    rewrite (Combine_distinct fuel b a h db da) by (assumption || congruence).
    fold es. rewrite lookup_insert_ne by congruence. rewrite Ha. reflexivity.
  - rewrite Hs, Hes1. reflexivity.
  - rewrite Hp, fmap_app, snapshots_from_parameters. f_equal.
    unfold es. clear. generalize (FunctionParams.parameters <$> parameters da) as k.
    induction (subscribers da) as [|f fs IH]; intros [|x k]; simpl; try reflexivity.
    f_equal. apply IH.
  - unfold shift_right, transfer.
    rewrite bool_decide_eq_false_2 by (intros Hc; apply Hc; reflexivity). reflexivity.
Qed.

End TransferProperties.

(** The README's [del1.Combine(del2)] and [del1.Invoke()]. *)
Lemma Combine_composes_invocation_witness :
  let del1 := Subscribe_packs lambda1 [10; 15] empty_delegate in
  let del2 := Subscribe_packs lambda2 [-2; -6] empty_delegate in
  let h : gmap nat (DelegateBase lambda Z) := <[2%nat := del2]> (<[1%nat := del1]> ∅) in
  aligned del1 /\ aligned del2 /\
  exists t', Combine 3 1 2 h = Done (<[1%nat := t']> h) /\
    Invoke logged t' [] = Some [(lambda1, 10); (lambda1, 15); (lambda2, -2); (lambda2, -6)].
Proof.
  intros del1 del2 h.
  assert (Hne : 1%nat <> 2%nat) by discriminate.
  assert (H1 : h !! 1%nat = Some del1) by (vm_compute; reflexivity).
  assert (H2 : h !! 2%nat = Some del2) by (vm_compute; reflexivity).
  assert (Ha1 : aligned del1) by by_evaluation.
  assert (Ha2 : aligned del2) by by_evaluation.
  assert (Hn : size (subscribers del1) + size (subscribers del2) <= INT_MAX) by by_evaluation.
  destruct (Combine_composes_invocation logged 3 1 2 h del1 del2 0 [] Hne H1 H2 Ha1 Ha2 Hn
              (le_n 3)) as (t' & Ht' & _ & _ & Hinv & _).
  repeat split; try assumption. exists t'. split; [exact Ht' | ].
  rewrite Hinv. reflexivity.
Defined.

(** A delegate with one subscription combined with itself, on any fuel. *)
Lemma Combine_with_itself_witness :
  let h : gmap nat (DelegateBase lambda Z) := <[1%nat := Subscribe lambda1 7 empty_delegate]> ∅ in
  Combine 1000 1 1 h = OutOfFuel /\
  Combine 1 1 1 (<[1%nat := add_assign lambda1 empty_delegate]> h) = Undefined /\
  Combine 1 1 1 (<[1%nat := empty_delegate]> h) = Done (<[1%nat := empty_delegate]> h).
Proof.
  intros h.
  assert (H1 : h !! 1%nat = Some (Subscribe lambda1 7 empty_delegate))
    by (vm_compute; reflexivity).
  assert (H2 : (<[1%nat := add_assign lambda1 empty_delegate]> h) !! 1%nat =
               Some (add_assign lambda1 empty_delegate)) by apply lookup_insert_eq.
  assert (H3 : (<[1%nat := empty_delegate]> h) !! 1%nat = Some empty_delegate)
    by apply lookup_insert_eq.
  destruct (Combine_with_itself 1 h _ 1000 H1) as (_ & _ & Hloop).
  destruct (Combine_with_itself 1 _ _ 0 H2) as (_ & Hundefined & _).
  destruct (Combine_with_itself 1 _ _ 0 H3) as (Hdone & _ & _).
  split; [apply Hloop; discriminate | ].
  split; [apply Hundefined; [discriminate | reflexivity] | ].
  apply Hdone. reflexivity.
Defined.

(** The README's [del1 >> del2]. *)
Lemma shift_right_moves_into_rhs_witness :
  let del1 := Subscribe_packs lambda1 [10; 15] empty_delegate in
  let del2 := Subscribe_packs lambda2 [-2; -6] empty_delegate in
  let h : gmap nat (DelegateBase lambda Z) := <[2%nat := del2]> (<[1%nat := del1]> ∅) in
  exists h', shift_right 3 1 2 h = Done h' /\
    h' !! 1%nat = Some empty_delegate /\
    subscribers <$> h' !! 2%nat = Some [lambda2; lambda2; lambda1; lambda1].
Proof.
  intros del1 del2 h.
  assert (Hne : 1%nat <> 2%nat) by discriminate.
  assert (H1 : h !! 1%nat = Some del1) by (vm_compute; reflexivity).
  assert (H2 : h !! 2%nat = Some del2) by (vm_compute; reflexivity).
  destruct (shift_right_moves_into_rhs h 1 2 del1 del2 3 Hne H1 H2 (le_n 2) (le_n 3))
    as (db' & Hshift & Hs & _ & _).
  eexists. split; [exact Hshift | ]. split.
  - apply lookup_insert_eq.
  - rewrite lookup_insert_ne by discriminate. rewrite lookup_insert_eq. simpl.
    rewrite Hs. reflexivity.
Defined.

(** ** Duplication followed by single removal *)

Section IncrementDecrement.
Context {F A : Type}.
Implicit Types (d : DelegateBase F A).

(** X12: [del++] followed by [del--] gives the delegate back, whatever
    its packs: the pack attached last carries the index of the callable
    appended last. *)
Theorem post_decrement_post_increment d :
  size (subscribers d) < INT_MAX ->
  post_decrement (post_increment d) = Some d.
Proof.
  intros Hn. destruct d as [subs ps]. simpl in Hn. unfold post_increment. simpl.
  induction subs as [|newDel subs _] using rev_ind; [reflexivity | ].
  rewrite last_snoc.
  induction ps as [|back ps _] using rev_ind.
  - simpl. unfold post_decrement, push_subscriber, push_back. simpl.
    destruct ((subs ++ [newDel]) ++ [newDel]) eqn:Heq.
    { destruct subs; discriminate Heq. }
    rewrite <- Heq. rewrite pop_back_snoc. reflexivity.
  - rewrite last_snoc. unfold AttachParameters, push_subscriber, push_back. simpl.
    pose proof (size_nonneg (subs ++ [newDel])) as Hpos.
    assert (Hidx : to_size_t (size ((subs ++ [newDel]) ++ [newDel]) - 1) =
                   size (subs ++ [newDel])).
    { rewrite (size_app (subs ++ [newDel])). unfold size at 2. simpl.
      rewrite to_size_t_small by (unfold SIZE_MAX, INT_MAX in *; lia). lia. }
    rewrite Hidx.
    etransitivity; [symmetry; apply pre_post_decrement_eq | ].
    rewrite decrement_last_snapshot.
    + simpl. unfold size. rewrite Nat2Z.id.
      rewrite (delete_middle (subs ++ [newDel]) [] newDel), app_nil_r. reflexivity.
    + simpl. rewrite (size_app (subs ++ [newDel])). unfold size. simpl. lia.
    + simpl. lia.
Qed.

(** X13: [++del] followed by [--del] keeps the inserted copy and erases
    the last callable: the pack attached by [++del] carries the index of
    the last callable, not of the copy at the front.  The packs are as
    before. *)
Theorem pre_decrement_pre_increment (newDel : F) (rest : list F)
    (ps : list (FunctionParams A)) :
  size (newDel :: rest) < INT_MAX ->
  pre_decrement (pre_increment (mkDelegateBase (newDel :: rest) ps)) =
    Some (mkDelegateBase (newDel :: take (length rest) (newDel :: rest)) ps).
Proof.
  intros Hn. pose proof (size_nonneg rest) as Hpos. rewrite size_cons in Hn.
  assert (Hdel : delete (Datatypes.S (length rest)) (newDel :: newDel :: rest) =
                 newDel :: take (length rest) (newDel :: rest)).
  { simpl. f_equal. rewrite delete_take_drop.
    rewrite (drop_ge (newDel :: rest)) by (simpl; lia). apply app_nil_r. }
  destruct ps as [|front ps].
  - unfold pre_increment, pre_decrement. simpl. reflexivity.
  - assert (Hinc : pre_increment (mkDelegateBase (newDel :: rest) (front :: ps)) =
                   mkDelegateBase (newDel :: newDel :: rest)
                     ((front :: ps) ++
                      [FunctionParams.make (to_size_t (size (newDel :: newDel :: rest) - 1))
                         (FunctionParams.parameters front)])) by reflexivity.
    assert (Hidx : to_size_t (size (newDel :: newDel :: rest) - 1) =
                   Z.of_nat (Datatypes.S (length rest))).
    { rewrite !size_cons. unfold size in *.
      rewrite to_size_t_small by (unfold SIZE_MAX, INT_MAX in *; lia). lia. }
    rewrite Hinc, Hidx.
    rewrite decrement_last_snapshot.
    + simpl FunctionParams.index. rewrite Nat2Z.id, Hdel. reflexivity.
    + simpl FunctionParams.index. rewrite !size_cons. unfold size in *. lia.
    + simpl FunctionParams.index. unfold size in *. lia.
Qed.

End IncrementDecrement.

(** [del++; del--] on the README's delegate. *)
Lemma post_decrement_post_increment_witness :
  size (subscribers readme_delegate) < INT_MAX /\
  post_decrement (post_increment readme_delegate) = Some readme_delegate.
Proof.
  assert (Hn : size (subscribers readme_delegate) < INT_MAX) by by_evaluation.
  split; [exact Hn | ]. apply (post_decrement_post_increment readme_delegate Hn).
Defined.

(** [++del; --del] on [Subscribe(lambda1, 4); Subscribe(lambda2, -5)]. *)
Lemma pre_decrement_pre_increment_witness :
  let ps := [FunctionParams.make 0 4; FunctionParams.make 1 (-5)] in
  size [lambda1; lambda2] < INT_MAX /\
  pre_decrement (pre_increment (mkDelegateBase [lambda1; lambda2] ps)) =
    Some (mkDelegateBase [lambda1; lambda1] ps).
Proof.
  intros ps.
  assert (Hn : size [lambda1; lambda2] < INT_MAX) by by_evaluation.
  split; [exact Hn | ]. apply (pre_decrement_pre_increment lambda1 [lambda2] ps Hn).
Defined.

(** ** Subscription and removal by value *)

Section ByValue.
Context {F A : Type} `{EqDecision F}.
Implicit Types (d : DelegateBase F A) (rhs : F).

Lemma add_assign_functions_spec (fs : list F) d :
  add_assign_functions fs d = mkDelegateBase (subscribers d ++ fs) (parameters d).
Proof.
  revert d. induction fs as [|f fs IH]; intros d; simpl.
  - rewrite app_nil_r. destruct d; reflexivity.
  - rewrite IH. simpl. unfold push_back. rewrite <- app_assoc. reflexivity.
Qed.

(** X14: [del -= rhs] removes every occurrence of [rhs], not only the
    last one subscribed, keeps the other callables in their order, and
    leaves [parameters] as they are; it undoes [del += rhs] exactly when
    [rhs] was not subscribed before. *)
Theorem sub_assign_removes_every_occurrence rhs d :
  (rhs ∉ subscribers (sub_assign rhs d)) /\
  (forall x, x ∈ subscribers (sub_assign rhs d) <-> x ∈ subscribers d /\ x <> rhs) /\
  (subscribers (sub_assign rhs d) `sublist_of` subscribers d) /\
  parameters (sub_assign rhs d) = parameters d /\
  sub_assign rhs (add_assign rhs d) = sub_assign rhs d /\
  (rhs ∉ subscribers d -> sub_assign rhs (add_assign rhs d) = d).
Proof.
  assert (Hadd : sub_assign rhs (add_assign rhs d) = sub_assign rhs d).
  { unfold sub_assign, add_assign, push_subscriber, push_back. simpl.
    rewrite filter_app, filter_cons_False by (intros Hc; apply Hc; reflexivity).
    rewrite filter_nil, app_nil_r. reflexivity. }
  split.
  { simpl. intros [Hne _]%list_elem_of_filter. apply Hne. reflexivity. }
  split.
  { intros x. simpl. rewrite list_elem_of_filter. tauto. }
  split; [simpl; apply sublist_filter | ].
  split; [reflexivity | ].
  split; [exact Hadd | ].
  intros Hnot. rewrite Hadd. unfold sub_assign. rewrite filter_keeps_all.
  - destruct d; reflexivity.
  - apply Forall_forall. intros x Hx ->. apply Hnot, Hx.
Qed.

(** X15: on an aligned delegate, [del -= rhs] for a subscribed [rhs]
    leaves more packs than callables: I1 fails, and [Invoke()] reads
    [subscribers] out of range. *)
Theorem sub_assign_leaves_the_packs rhs d :
  aligned d -> rhs ∈ subscribers d ->
  (length (subscribers (sub_assign rhs d)) < length (parameters (sub_assign rhs d)))%nat /\
  ~ I1 (sub_assign rhs d).
Proof.
  intros [Hc Hlen] Hin.
  assert (Hlt : (length (subscribers (sub_assign rhs d)) < length (parameters d))%nat).
  { simpl. rewrite Hlen.
    apply (length_filter_lt (fun x => x <> rhs) (subscribers d) rhs Hin).
    intros Hc'. apply Hc'. reflexivity. }
  split; [exact Hlt | ].
  intros HI. unfold I1 in HI. simpl parameters in HI.
  destruct (lookup_lt_is_Some_2 (parameters d) (length (parameters d) - 1)) as [p Hp].
  { lia. }
  pose proof (proj1 (Forall_lookup _ _) HI _ _ Hp) as Hidx. simpl in Hidx.
  rewrite (counted_lookup _ _ p Hc Hp) in Hidx. unfold size in Hidx.
  simpl in Hlt. lia.
Qed.

(** X16: [del -= {f1, ..., fk}] is [del -= f1; ...; del -= fk]. *)
Theorem sub_assign_functions_successive (fs : list F) d :
  sub_assign_functions fs d = foldl (fun d' f => sub_assign f d') d fs.
Proof.
  revert d. induction fs as [|f fs IH]; intros d; simpl.
  - unfold sub_assign_functions. rewrite filter_keeps_all.
    + destruct d; reflexivity.
    + apply Forall_forall. intros x _. apply not_elem_of_nil.
  - rewrite <- IH. unfold sub_assign_functions, sub_assign. simpl.
    rewrite list_filter_filter. f_equal. apply list_filter_iff.
    intros x. rewrite not_elem_of_cons. tauto.
Qed.

(** X17: [del += {f1, ..., fk}] appends the callables in order and
    touches no pack; [del -= {f1, ..., fk}] undoes it when none of them
    was subscribed before. *)
Theorem sub_assign_functions_add_assign_functions (fs : list F) d :
  Forall (fun f => f ∉ subscribers d) fs ->
  subscribers (add_assign_functions fs d) = subscribers d ++ fs /\
  parameters (add_assign_functions fs d) = parameters d /\
  sub_assign_functions fs (add_assign_functions fs d) = d.
Proof.
  intros Hnew. rewrite add_assign_functions_spec. simpl. repeat split.
  unfold sub_assign_functions. simpl. rewrite filter_app.
  rewrite filter_keeps_all, filter_drops_all.
  - rewrite app_nil_r. destruct d; reflexivity.
  - apply Forall_forall. intros x Hx Hnot. apply Hnot, Hx.
  - apply Forall_forall. intros x Hx Hin.
    apply (proj1 (Forall_forall _ _) Hnew x Hin Hx).
Qed.

(** X18: the comparison operators look at [subscribers] only: [==] and
    [!=] decide the equality of the callables and ignore the packs, the
    four order operators compare the numbers of callables, so that
    [a < b] is [b > a] and the negation of [a >= b], and equal delegates
    are both [<=] and [>=]. *)
Theorem comparisons_of_subscribers (a b : DelegateBase F A)
    (ps ps' : list (FunctionParams A)) :
  (equal a b = true <-> subscribers a = subscribers b) /\
  not_equal a b = negb (equal a b) /\
  equal (mkDelegateBase (subscribers a) ps) (mkDelegateBase (subscribers a) ps') = true /\
  less a b = greater b a /\
  less_equal a b = greater_equal b a /\
  less a b = negb (greater_equal a b) /\
  greater a b = negb (less_equal a b) /\
  (equal a b = true -> less_equal a b = true /\ greater_equal a b = true) /\
  (less_equal a b = true -> greater_equal a b = true ->
     length (subscribers a) = length (subscribers b)).
Proof.
  unfold equal, not_equal, less, less_equal, greater, greater_equal, size. simpl.
  split; [apply bool_decide_eq_true | ].
  split; [apply bool_decide_not | ].
  split; [apply bool_decide_eq_true_2; reflexivity | ].
  split; [apply bool_decide_ext; lia | ].
  split; [apply bool_decide_ext; lia | ].
  split; [rewrite <- bool_decide_not; apply bool_decide_ext; lia | ].
  split; [rewrite <- bool_decide_not; apply bool_decide_ext; lia | ].
  split.
  - intros Heq%bool_decide_eq_true_1. rewrite Heq.
    split; apply bool_decide_eq_true_2; lia.
  - intros H1%bool_decide_eq_true_1 H2%bool_decide_eq_true_1. lia.
Qed.

End ByValue.

(** [del += lambda3; del -= lambda3] on the README's delegate, where
    [lambda3] is not subscribed. *)
Lemma sub_assign_removes_every_occurrence_witness :
  (lambda3 ∉ subscribers readme_delegate) /\
  sub_assign lambda3 (add_assign lambda3 readme_delegate) = readme_delegate /\
  subscribers (sub_assign lambda1 readme_delegate) = [lambda2; lambda2].
Proof.
  assert (Hnot : lambda3 ∉ subscribers readme_delegate)
    by (apply (bool_decide_unpack _); vm_compute; exact I).
  destruct (sub_assign_removes_every_occurrence lambda3 readme_delegate)
    as (_ & _ & _ & _ & _ & Hundo).
  split; [exact Hnot | ]. split; [apply Hundo, Hnot | reflexivity].
Defined.

(** [del -= lambda2] on the README's delegate. *)
Lemma sub_assign_leaves_the_packs_witness :
  aligned readme_delegate /\ lambda2 ∈ subscribers readme_delegate /\
  ~ I1 (sub_assign lambda2 readme_delegate) /\
  Invoke logged (sub_assign lambda2 readme_delegate) [] = None.
Proof.
  assert (Ha : aligned readme_delegate) by by_evaluation.
  assert (Hin : lambda2 ∈ subscribers readme_delegate)
    by (apply (bool_decide_unpack _); vm_compute; exact I).
  destruct (sub_assign_leaves_the_packs lambda2 readme_delegate Ha Hin) as [_ HI].
  split; [exact Ha | ]. split; [exact Hin | ]. split; [exact HI | reflexivity].
Defined.

(** The README's [del += {lambda1, lambda2, lambda3}], undone. *)
Lemma sub_assign_functions_add_assign_functions_witness :
  let fs := [lambda1; lambda2; lambda3] in
  Forall (fun f => f ∉ subscribers (@empty_delegate lambda Z)) fs /\
  subscribers (add_assign_functions fs (@empty_delegate lambda Z)) = fs /\
  sub_assign_functions fs (add_assign_functions fs (@empty_delegate lambda Z)) =
    empty_delegate.
Proof.
  intros fs.
  assert (Hnew : Forall (fun f => f ∉ subscribers (@empty_delegate lambda Z)) fs).
  { repeat constructor; apply not_elem_of_nil. }
  destruct (sub_assign_functions_add_assign_functions fs empty_delegate Hnew)
    as (Hs & _ & Hundo).
  split; [exact Hnew | ]. split; [exact Hs | exact Hundo].
Defined.

(** The README's delegate against itself without its packs. *)
Lemma comparisons_of_subscribers_witness :
  let bare : DelegateBase lambda Z := mkDelegateBase (subscribers readme_delegate) [] in
  equal readme_delegate bare = true /\
  less_equal readme_delegate bare = true /\
  greater_equal readme_delegate bare = true /\
  length (subscribers readme_delegate) = length (subscribers bare).
Proof.
  intros bare.
  destruct (comparisons_of_subscribers readme_delegate bare [] [])
    as (_ & _ & _ & _ & _ & _ & _ & Horder & Hlen).
  assert (Heq : equal readme_delegate bare = true) by reflexivity.
  destruct (Horder Heq) as [Hle Hge].
  split; [exact Heq | ]. split; [exact Hle | ]. split; [exact Hge | ].
  apply Hlen; assumption.
Defined.

(** ** [SimpleDelegate] *)

Section SimpleDelegateProperties.
Context {F A W : Type} `{EqDecision F}.
Implicit Types (d : SimpleDelegate.t F).

Lemma SimpleDelegate_call_logged d (x : A) (w : list (F * A)) :
  SimpleDelegate.call_operator logged d x w =
    w ++ ((fun g => (g, x)) <$> SimpleDelegate.subscribers d).
Proof.
  unfold SimpleDelegate.call_operator. destruct d as [subs]. simpl. revert w.
  induction subs as [|g subs IH]; intros w; simpl.
  - rewrite app_nil_r. reflexivity.
  - rewrite IH. unfold logged. simpl. rewrite <- app_assoc. reflexivity.
Qed.

(** X19: a [SimpleDelegate] called with fresh arguments runs its
    subscribers in the order of subscription; a function added by [+=]
    runs last, after all the others; after [-=] the function is not run at
    all, however often it was subscribed. *)
Theorem SimpleDelegate_call_order (call : F -> A -> W -> unit * W) d (f : F) (x y : A)
    (w : W) (log : list (F * A)) :
  SimpleDelegate.call_operator logged d x log =
    log ++ ((fun g => (g, x)) <$> SimpleDelegate.subscribers d) /\
  SimpleDelegate.call_operator call (SimpleDelegate.add_assign f d) x w =
    (call f x (SimpleDelegate.call_operator call d x w)).2 /\
  ((f, y) ∉ SimpleDelegate.call_operator logged (SimpleDelegate.sub_assign f d) x []) /\
  SimpleDelegate.sub_assign f (SimpleDelegate.add_assign f d) = SimpleDelegate.sub_assign f d.
Proof.
  split; [apply SimpleDelegate_call_logged | ]. split.
  { unfold SimpleDelegate.call_operator, SimpleDelegate.add_assign, push_back. simpl.
    rewrite foldl_app. reflexivity. }
  split.
  { rewrite SimpleDelegate_call_logged. simpl.
    intros (g & Hg & Hin)%list_elem_of_fmap. injection Hg as -> _.
    apply list_elem_of_filter in Hin as [Hne _]. apply Hne. reflexivity. }
  unfold SimpleDelegate.sub_assign, SimpleDelegate.add_assign, push_back. simpl.
  rewrite filter_app, filter_cons_False by (intros Hc; apply Hc; reflexivity).
  rewrite filter_nil, app_nil_r. reflexivity.
Qed.

End SimpleDelegateProperties.

(** ** Member delegates *)

Section MemberProperties.
Context {M O A R W : Type} `{Additive R} `{EqDecision M}.
Variable call_member : M -> O -> A -> W -> R * W.
Implicit Types (d : MemberDelegateBase M O A) (w : W)
  (ps : list (MemberFunctionParams O A)).

(** The bound call of a method with the object and pack saved in [p]. *)
Local Abbreviation bound :=
  (fun (m : M) (p : MemberFunctionParams O A) =>
     (m, MemberFunctionParams.object p, MemberFunctionParams.parameters p)).

Lemma Member_Invoke_loops_defined d (i : nat) ps (result : R) w :
  (i + length ps <= length (MemberDelegateBase.subscribers d))%nat ->
  Z.of_nat (i + length ps) <= INT_MAX ->
  RetMemberDelegate_Invoke_loop call_member d (Z.of_nat i) ps result w =
    Some (foldl plus_assign result
            (dispatch_each_member call_member
               (zip_with bound (drop i (MemberDelegateBase.subscribers d)) ps) w).1,
          (dispatch_each_member call_member
             (zip_with bound (drop i (MemberDelegateBase.subscribers d)) ps) w).2) /\
  MemberDelegate_Invoke_loop call_member d (Z.of_nat i) ps w =
    Some (dispatch_each_member call_member
            (zip_with bound (drop i (MemberDelegateBase.subscribers d)) ps) w).2.
Proof.
  revert i result w. induction ps as [|p ps IH]; intros i result w Hlen Hmax.
  - destruct (drop i (MemberDelegateBase.subscribers d)); split; reflexivity.
  - simpl in Hlen, Hmax.
    destruct (lookup_lt_is_Some_2 (MemberDelegateBase.subscribers d) i ltac:(lia)) as [m Hm].
    rewrite (drop_S _ m i Hm). simpl. unfold HelperMemberInvoke.
    rewrite to_int_small by (unfold in_int, INT_MIN, INT_MAX in *; lia).
    rewrite to_size_t_small by (unfold SIZE_MAX, INT_MAX in *; lia).
    rewrite at_lookup, Hm. simpl.
    replace (Z.of_nat i + 1) with (Z.of_nat (Datatypes.S i)) by lia.
    destruct (IH (Datatypes.S i)
                (plus_assign result
                   (call_member m (MemberFunctionParams.object p)
                      (MemberFunctionParams.parameters p) w).1)
                (call_member m (MemberFunctionParams.object p)
                   (MemberFunctionParams.parameters p) w).2) as [IHret IHvoid]; [lia | lia | ].
    rewrite IHret, IHvoid. split; reflexivity.
Qed.

Lemma Member_Invoke_loops_undefined d (i : nat) ps (result : R) w :
  (i <= length (MemberDelegateBase.subscribers d) < i + length ps)%nat ->
  Z.of_nat (i + length ps) <= INT_MAX ->
  RetMemberDelegate_Invoke_loop call_member d (Z.of_nat i) ps result w = None /\
  MemberDelegate_Invoke_loop call_member d (Z.of_nat i) ps w = None.
Proof.
  revert i result w. induction ps as [|p ps IH]; intros i result w Hlen Hmax.
  - simpl in Hlen. lia.
  - simpl in Hlen, Hmax. simpl. unfold HelperMemberInvoke.
    rewrite to_int_small by (unfold in_int, INT_MIN, INT_MAX in *; lia).
    rewrite to_size_t_small by (unfold SIZE_MAX, INT_MAX in *; lia).
    rewrite at_lookup.
    destruct (MemberDelegateBase.subscribers d !! i) as [m|] eqn:Hm; simpl.
    + apply lookup_lt_Some in Hm.
      replace (Z.of_nat i + 1) with (Z.of_nat (Datatypes.S i)) by lia.
      apply IH; lia.
    + split; reflexivity.
Qed.

(** X20: [MemberDelegate::Invoke()] and [RetMemberDelegate::Invoke()]
    pair the [i]-th pack with the [i]-th method, whatever index the pack
    carries: with at least as many methods as packs they call the [i]-th
    method on the [i]-th saved object with the [i]-th saved arguments, the
    second summing the results; with fewer methods than packs they read
    [subscribers] out of range. *)
Theorem MemberDelegate_Invoke_by_position d w :
  size (MemberDelegateBase.parameters d) <= INT_MAX ->
  (size (MemberDelegateBase.parameters d) <= size (MemberDelegateBase.subscribers d) ->
     MemberDelegate_Invoke call_member d w =
       Some (dispatch_each_member call_member
               (zip_with bound (MemberDelegateBase.subscribers d)
                  (MemberDelegateBase.parameters d)) w).2 /\
     RetMemberDelegate_Invoke call_member d w =
       Some (sum_results
               (dispatch_each_member call_member
                  (zip_with bound (MemberDelegateBase.subscribers d)
                     (MemberDelegateBase.parameters d)) w).1,
             (dispatch_each_member call_member
                (zip_with bound (MemberDelegateBase.subscribers d)
                   (MemberDelegateBase.parameters d)) w).2)) /\
  (size (MemberDelegateBase.subscribers d) < size (MemberDelegateBase.parameters d) ->
     MemberDelegate_Invoke call_member d w = None /\
     RetMemberDelegate_Invoke call_member d w = None).
Proof.
  intros Hmax. unfold size in *.
  unfold MemberDelegate_Invoke, RetMemberDelegate_Invoke. change 0 with (Z.of_nat 0).
  split; intros Hlen.
  - destruct (Member_Invoke_loops_defined d 0 (MemberDelegateBase.parameters d)
                value_init w) as [Hret Hvoid]; [simpl; lia | simpl; lia | ].
    split; [exact Hvoid | exact Hret].
  - destruct (Member_Invoke_loops_undefined d 0 (MemberDelegateBase.parameters d)
                value_init w) as [Hret Hvoid]; [simpl; lia | simpl; lia | ].
    split; [exact Hvoid | exact Hret].
Qed.

(** Subscribing the (object, method, arguments) entries one at a time to
    the empty member delegate pairs the [i]-th method with the [i]-th
    pack. *)
Lemma MemberDelegateBase_Subscribe_all (entries : list (O * M * A)) :
  let d := foldl (fun d0 e => MemberDelegateBase_Subscribe e.1.1 e.1.2 e.2 d0)
             (MemberDelegateBase.make [] []) entries in
  length (MemberDelegateBase.subscribers d) = length entries /\
  length (MemberDelegateBase.parameters d) = length entries /\
  zip_with bound (MemberDelegateBase.subscribers d) (MemberDelegateBase.parameters d) =
    (fun e => (e.1.2, e.1.1, e.2)) <$> entries.
Proof.
  induction entries as [|e entries IH] using rev_ind; [repeat split | ].
  cbv zeta in *. rewrite foldl_app.
  set (d0 := foldl _ _ entries) in *. destruct IH as (Hs & Hp & Hzip).
  simpl. unfold push_back. rewrite !length_app, Hs, Hp. simpl.
  split; [reflexivity | ]. split; [reflexivity | ].
  rewrite zip_with_app by (rewrite Hs, Hp; reflexivity).
  rewrite Hzip, fmap_app. reflexivity.
Qed.

(** X21: after any sequence of [Subscribe(obj, method, params...)] calls
    on an empty member delegate, [Invoke()] calls each subscribed method
    on the object and with the arguments it was subscribed with, in the
    order of subscription; [RetMemberDelegate::Invoke()] returns the sum
    of the results. *)
Theorem MemberDelegate_Invoke_after_Subscribe (entries : list (O * M * A)) w :
  size entries <= INT_MAX ->
  let d := foldl (fun d0 e => MemberDelegateBase_Subscribe e.1.1 e.1.2 e.2 d0)
             (MemberDelegateBase.make [] []) entries in
  let plan := (fun e => (e.1.2, e.1.1, e.2)) <$> entries in
  MemberDelegateBase.subscribers d = (fun e => e.1.2) <$> entries /\
  MemberDelegate_Invoke call_member d w =
    Some (dispatch_each_member call_member plan w).2 /\
  RetMemberDelegate_Invoke call_member d w =
    Some (sum_results (dispatch_each_member call_member plan w).1,
          (dispatch_each_member call_member plan w).2).
Proof.
  intros Hmax d plan.
  destruct (MemberDelegateBase_Subscribe_all entries) as (Hs & Hp & Hzip). fold d in Hs, Hp, Hzip.
  split.
  { unfold d. clear. induction entries as [|e entries IH] using rev_ind; [reflexivity | ].
    rewrite foldl_app, fmap_app. simpl. unfold push_back. rewrite IH. reflexivity. }
  unfold MemberDelegate_Invoke, RetMemberDelegate_Invoke. change 0 with (Z.of_nat 0).
  destruct (Member_Invoke_loops_defined d 0 (MemberDelegateBase.parameters d) value_init w)
    as [Hret Hvoid]; [simpl; lia | simpl; unfold size in Hmax; lia | ].
  rewrite drop_0, Hzip in Hret, Hvoid.
  split; [exact Hvoid | exact Hret].
Qed.

(** X22: when every method of a member delegate has its pack, [del -= m]
    for a subscribed [m] removes callables and no pack, and [Invoke()]
    then reads [subscribers] out of range. *)
Theorem MemberDelegate_Invoke_after_sub_assign (m : M) d w :
  length (MemberDelegateBase.parameters d) = length (MemberDelegateBase.subscribers d) ->
  size (MemberDelegateBase.parameters d) <= INT_MAX ->
  m ∈ MemberDelegateBase.subscribers d ->
  MemberDelegateBase.parameters (MemberDelegateBase_sub_assign m d) =
    MemberDelegateBase.parameters d /\
  MemberDelegate_Invoke call_member (MemberDelegateBase_sub_assign m d) w = None /\
  RetMemberDelegate_Invoke call_member (MemberDelegateBase_sub_assign m d) w = None.
Proof.
  intros Hlen Hmax Hin. split; [reflexivity | ].
  unfold MemberDelegate_Invoke, RetMemberDelegate_Invoke. change 0 with (Z.of_nat 0).
  assert (Hlt : (length (MemberDelegateBase.subscribers (MemberDelegateBase_sub_assign m d)) <
                 length (MemberDelegateBase.parameters d))%nat).
  { simpl. rewrite Hlen.
    apply (length_filter_lt (fun x => x <> m) (MemberDelegateBase.subscribers d) m Hin).
    intros Hc. apply Hc. reflexivity. }
  destruct (Member_Invoke_loops_undefined (MemberDelegateBase_sub_assign m d) 0
              (MemberDelegateBase.parameters d) value_init w) as [Hret Hvoid].
  { simpl in *. lia. }
  { simpl. unfold size in Hmax. lia. }
  split; [exact Hvoid | exact Hret].
Qed.

End MemberProperties.

(** Two methods and one pack, whose index is not read; and a pack
    without a method. *)
Lemma MemberDelegate_Invoke_by_position_witness :
  let d : MemberDelegateBase lambda nat Z :=
    MemberDelegateBase.make [lambda1; lambda2] [MemberFunctionParams.make 7 1%nat 4] in
  let d' : MemberDelegateBase lambda nat Z :=
    MemberDelegateBase.make [] [MemberFunctionParams.make 0 1%nat 4] in
  MemberDelegate_Invoke traced_member d [] = Some [(lambda1, 1%nat, 4)] /\
  MemberDelegate_Invoke traced_member d' [] = None.
Proof.
  intros d d'.
  assert (Hmax : size (MemberDelegateBase.parameters d) <= INT_MAX) by by_evaluation.
  assert (Hmax' : size (MemberDelegateBase.parameters d') <= INT_MAX) by by_evaluation.
  destruct (MemberDelegate_Invoke_by_position traced_member d [] Hmax) as [Hdef _].
  destruct (MemberDelegate_Invoke_by_position traced_member d' [] Hmax') as [_ Hundef].
  split.
  - destruct Hdef as [Hvoid _]; [by_evaluation | ]. rewrite Hvoid. reflexivity.
  - destruct Hundef as [Hvoid _]; [by_evaluation | ]. exact Hvoid.
Defined.

(** Two subscriptions on two objects, then [Invoke()]. *)
Lemma MemberDelegate_Invoke_after_Subscribe_witness :
  let entries := [(1%nat, lambda1, 4); (2%nat, lambda2, 6)] in
  size entries <= INT_MAX /\
  RetMemberDelegate_Invoke traced_member
    (foldl (fun d0 e => MemberDelegateBase_Subscribe e.1.1 e.1.2 e.2 d0)
       (MemberDelegateBase.make [] []) entries) [] =
    Some (10, [(lambda1, 1%nat, 4); (lambda2, 2%nat, 6)]).
Proof.
  intros entries.
  assert (Hmax : size entries <= INT_MAX) by by_evaluation.
  destruct (MemberDelegate_Invoke_after_Subscribe traced_member entries [] Hmax)
    as (_ & _ & Hret).
  split; [exact Hmax | ]. rewrite Hret. reflexivity.
Defined.

(** [del.Subscribe(&o1, lambda1, 4); del.Subscribe(&o2, lambda2, 6);
    del -= lambda1; del.Invoke()]. *)
Lemma MemberDelegate_Invoke_after_sub_assign_witness :
  let d : MemberDelegateBase lambda nat Z :=
    MemberDelegateBase_Subscribe 2%nat lambda2 6
      (MemberDelegateBase_Subscribe 1%nat lambda1 4 (MemberDelegateBase.make [] [])) in
  lambda1 ∈ MemberDelegateBase.subscribers d /\
  MemberDelegate_Invoke traced_member (MemberDelegateBase_sub_assign lambda1 d) [] = None.
Proof.
  intros d.
  assert (Hin : lambda1 ∈ MemberDelegateBase.subscribers d)
    by (apply (bool_decide_unpack _); vm_compute; exact I).
  assert (Hmax : size (MemberDelegateBase.parameters d) <= INT_MAX) by by_evaluation.
  destruct (MemberDelegate_Invoke_after_sub_assign traced_member lambda1 d [] eq_refl Hmax Hin)
    as (_ & Hvoid & _).
  split; [exact Hin | exact Hvoid].
Defined.

(** ** Callables without packs *)

Section MixedProperties.
Context {F A R W : Type}.
Variable call : F -> A -> W -> R * W.
Implicit Types (d : DelegateBase F A) (w : W) (ps : list (FunctionParams A)).

Lemma replay_plan_push (subs : list F) (f : F) ps :
  Forall (fun p => 0 <= FunctionParams.index p < size subs) ps ->
  replay_plan (subs ++ [f]) ps = replay_plan subs ps.
Proof.
  induction 1 as [|p ps Hp Hps IH]; simpl; [reflexivity | ].
  rewrite IH. f_equal. unfold at_.
  rewrite !bool_decide_eq_true_2
    by (rewrite ?size_app; pose proof (size_nonneg [f]); lia).
  apply lookup_app_l. unfold size in Hp. lia.
Qed.

Lemma Invoke_loop_app d ps1 ps2 w :
  Invoke_loop call d (ps1 ++ ps2) w =
    (w1 ← Invoke_loop call d ps1 w; Invoke_loop call d ps2 w1).
Proof.
  revert w. induction ps1 as [|p ps1 IH]; intros w; simpl; [reflexivity | ].
  destruct (HelperInvoke call d (FunctionParams.parameters p)
              (to_int (FunctionParams.index p)) w) as [rw|]; simpl; [apply IH | reflexivity].
Qed.

(** X23: on a delegate with I1, [del += f] adds a callable that
    [Invoke()] never calls: the replay is as before. *)
Theorem Invoke_after_add_assign (f : F) d w :
  Forall (fun p => 0 <= FunctionParams.index p <= INT_MAX) (parameters d) ->
  I1 d ->
  Invoke call (add_assign f d) w = Invoke call d w.
Proof.
  intros Hint HI.
  rewrite !Invoke_replays_plan by exact Hint. simpl. unfold push_back.
  rewrite replay_plan_push by exact HI. reflexivity.
Qed.

(** X24: on a delegate with I1, also one with callables that have no
    pack, [Subscribe(f, params)] makes [Delegate::Invoke()] replay what it
    replayed before and then call [f] with [params]. *)
Theorem Invoke_after_one_Subscribe (f : F) (params : A) d w :
  Forall (fun p => 0 <= FunctionParams.index p <= INT_MAX) (parameters d) ->
  I1 d -> size (subscribers d) <= INT_MAX ->
  Invoke call (Subscribe f params d) w =
    (w1 ← Invoke call d w; Some (call f params w1).2).
Proof.
  intros Hint HI Hn. pose proof (size_nonneg (subscribers d)) as Hpos.
  unfold Invoke. simpl parameters. unfold push_back. rewrite Invoke_loop_app.
  assert (Hfirst : Invoke_loop call (Subscribe f params d) (parameters d) w =
                   Invoke_loop call d (parameters d) w).
  { rewrite !Invoke_loop_plan by exact Hint. simpl. unfold push_back.
    rewrite replay_plan_push by exact HI. reflexivity. }
  rewrite Hfirst. destruct (Invoke_loop call d (parameters d) w) as [w1|]; [ | reflexivity].
  simpl. unfold HelperInvoke. simpl. unfold push_back.
  assert (Hidx : to_size_t (size (subscribers d ++ [f]) - 1) = size (subscribers d)).
  { rewrite size_app. unfold size at 2. simpl.
    rewrite to_size_t_small by (unfold SIZE_MAX, INT_MAX in *; lia). lia. }
  rewrite Hidx.
  rewrite to_int_small by (unfold in_int, INT_MIN, INT_MAX in *; lia).
  rewrite to_size_t_small by (unfold SIZE_MAX, INT_MAX in *; lia).
  unfold size. rewrite at_lookup.
  rewrite (lookup_app_r (subscribers d) [f]) by lia. rewrite Nat.sub_diag. reflexivity.
Qed.

End MixedProperties.

Section RemoveByPackCount.
Context {F A : Type}.

(** X25: [Remove(1)] on a delegate with at least two callables pops the
    last callable and detaches the pack whose index is
    [parameters.size() - 1]: on counted packs that is the last pack,
    whichever callable it belongs to.  After [del += f] it is the pack of
    a callable that stays subscribed. *)
Theorem Remove_from_back_detaches_last_pack (subs : list F) (f : F)
    (ps : list (FunctionParams A)) :
  counted ps -> size ps <= INT_MAX -> 2 <= size (subs ++ [f]) <= INT_MAX ->
  Remove 1 true (mkDelegateBase (subs ++ [f]) ps) =
    Some (mkDelegateBase subs (take (length ps - 1) ps)).
Proof.
  intros Hc Hmax Hn. unfold Remove. simpl subscribers.
  assert (Hadj : to_size_t (to_int (if bool_decide (to_size_t 1 < size (subs ++ [f]))
                                    then to_size_t 1
                                    else to_size_t (size (subs ++ [f]) - 1))) = 1).
  { rewrite (to_size_t_small 1) by (unfold SIZE_MAX; lia).
    rewrite bool_decide_eq_true_2 by lia. reflexivity. }
  rewrite Hadj. simpl negb. cbv iota.
  rewrite detach_last_loop by (assumption || lia). simpl.
  rewrite pop_loop by lia.
  do 2 f_equal.
  - rewrite size_app. unfold size. simpl length.
    replace (Z.to_nat (Z.of_nat (length subs) + Z.of_nat 1 - 1)) with (length subs) by lia.
    apply take_app_length.
  - f_equal. unfold size. lia.
Qed.

End RemoveByPackCount.

(** [del += lambda3] on the README's delegate, then [Invoke()]. *)
Lemma Invoke_after_add_assign_witness :
  I1 readme_delegate /\
  Invoke logged (add_assign lambda3 readme_delegate) [] = Invoke logged readme_delegate [].
Proof.
  assert (Hint : Forall (fun p => 0 <= FunctionParams.index p <= INT_MAX)
                   (parameters readme_delegate)) by (repeat constructor; by_evaluation).
  assert (HI : I1 readme_delegate) by (repeat constructor; by_evaluation).
  split; [exact HI | ].
  apply (Invoke_after_add_assign logged lambda3 readme_delegate [] Hint HI).
Defined.

(** The README's [del += {lambda1, lambda2, lambda3}] followed by
    [del.Subscribe(lambda1, 10)] and [del.Invoke()]. *)
Lemma Invoke_after_one_Subscribe_witness :
  let d : DelegateBase lambda Z :=
    add_assign_functions [lambda1; lambda2; lambda3] empty_delegate in
  I1 d /\ Invoke logged (Subscribe lambda1 10 d) [] = Some [(lambda1, 10)].
Proof.
  intros d.
  assert (Hint : Forall (fun p => 0 <= FunctionParams.index p <= INT_MAX) (parameters d))
    by constructor.
  assert (HI : I1 d) by constructor.
  assert (Hn : size (subscribers d) <= INT_MAX) by by_evaluation.
  split; [exact HI | ].
  rewrite (Invoke_after_one_Subscribe logged lambda1 10 d [] Hint HI Hn). reflexivity.
Defined.

(** [del.Subscribe(lambda1, {4, 6}); del += lambda2; del.Remove(1)]:
    [lambda2] goes, and with it the pack of the second [lambda1]. *)
Lemma Remove_from_back_detaches_last_pack_witness :
  let d := add_assign lambda2 (Subscribe_packs lambda1 [4; 6] empty_delegate) in
  counted (parameters d) /\
  Remove 1 true d = Some (mkDelegateBase [lambda1; lambda1] [FunctionParams.make 0 4]).
Proof.
  intros d.
  assert (Hc : counted (parameters d)) by by_evaluation.
  assert (Hmax : size (parameters d) <= INT_MAX) by by_evaluation.
  assert (Hn : 2 <= size ([lambda1; lambda1] ++ [lambda2]) <= INT_MAX) by by_evaluation.
  split; [exact Hc | ].
  apply (Remove_from_back_detaches_last_pack [lambda1; lambda1] lambda2 (parameters d)
           Hc Hmax Hn).
Defined.
